(** * Block ciphers ARIA, PRESENT and SIMON: a shallow embedding of
    src/algorithms/{ARIA,PRESENT,SIMON} and their properties.

    Machine integers are [Z]; every C conversion or shift that can leave the
    range of its unsigned type is written out with [trunc w]. *)

From Stdlib Require Import ZArith Lia List Bool Btauto.
From coqutil Require Import Z.bitblast.
Import ListNotations.
Local Open Scope Z_scope.

(** ** Fixed-width unsigned integers *)

(** Conversion to an unsigned [w]-bit type: reduction modulo [2^w]. *)
Definition trunc (w x : Z) : Z := Z.land x (Z.ones w).

Abbreviation u8 := (trunc 8).
Abbreviation u16 := (trunc 16).
Abbreviation u32 := (trunc 32).
Abbreviation u64 := (trunc 64).

(** C array indexing [tbl[i]] into a constant table. *)
Definition lookup (tbl : list Z) (i : Z) : Z := nth (Z.to_nat i) tbl 0.

(** ** ARIA (src/algorithms/ARIA/ARIA.c) *)
Module ARIA.

(** An [unsigned __int32[4]] array. *)
Record w128 := mk128 { q0 : Z; q1 : Z; q2 : Z; q3 : Z }.

Definition CK1 := mk128 0x517cc1b7 0x27220a94 0xfe13abe8 0xfa9a6ee0.
Definition CK2 := mk128 0x6db14acc 0x9e21c820 0xff28b1d5 0xef5de2b0.
Definition CK3 := mk128 0xdb92371d 0x2126e970 0x03249775 0x04e8c90e.

(** The register [KR] is initialised to zero and never written. *)
Definition KR := mk128 0 0 0 0.

Definition SB1 : list Z := [
  0x63; 0x7c; 0x77; 0x7b; 0xf2; 0x6b; 0x6f; 0xc5; 0x30; 0x01; 0x67; 0x2b; 0xfe; 0xd7; 0xab; 0x76;
  0xca; 0x82; 0xc9; 0x7d; 0xfa; 0x59; 0x47; 0xf0; 0xad; 0xd4; 0xa2; 0xaf; 0x9c; 0xa4; 0x72; 0xc0;
  0xb7; 0xfd; 0x93; 0x26; 0x36; 0x3f; 0xf7; 0xcc; 0x34; 0xa5; 0xe5; 0xf1; 0x71; 0xd8; 0x31; 0x15;
  0x04; 0xc7; 0x23; 0xc3; 0x18; 0x96; 0x05; 0x9a; 0x07; 0x12; 0x80; 0xe2; 0xeb; 0x27; 0xb2; 0x75;
  0x09; 0x83; 0x2c; 0x1a; 0x1b; 0x6e; 0x5a; 0xa0; 0x52; 0x3b; 0xd6; 0xb3; 0x29; 0xe3; 0x2f; 0x84;
  0x53; 0xd1; 0x00; 0xed; 0x20; 0xfc; 0xb1; 0x5b; 0x6a; 0xcb; 0xbe; 0x39; 0x4a; 0x4c; 0x58; 0xcf;
  0xd0; 0xef; 0xaa; 0xfb; 0x43; 0x4d; 0x33; 0x85; 0x45; 0xf9; 0x02; 0x7f; 0x50; 0x3c; 0x9f; 0xa8;
  0x51; 0xa3; 0x40; 0x8f; 0x92; 0x9d; 0x38; 0xf5; 0xbc; 0xb6; 0xda; 0x21; 0x10; 0xff; 0xf3; 0xd2;
  0xcd; 0x0c; 0x13; 0xec; 0x5f; 0x97; 0x44; 0x17; 0xc4; 0xa7; 0x7e; 0x3d; 0x64; 0x5d; 0x19; 0x73;
  0x60; 0x81; 0x4f; 0xdc; 0x22; 0x2a; 0x90; 0x88; 0x46; 0xee; 0xb8; 0x14; 0xde; 0x5e; 0x0b; 0xdb;
  0xe0; 0x32; 0x3a; 0x0a; 0x49; 0x06; 0x24; 0x5c; 0xc2; 0xd3; 0xac; 0x62; 0x91; 0x95; 0xe4; 0x79;
  0xe7; 0xc8; 0x37; 0x6d; 0x8d; 0xd5; 0x4e; 0xa9; 0x6c; 0x56; 0xf4; 0xea; 0x65; 0x7a; 0xae; 0x08;
  0xba; 0x78; 0x25; 0x2e; 0x1c; 0xa6; 0xb4; 0xc6; 0xe8; 0xdd; 0x74; 0x1f; 0x4b; 0xbd; 0x8b; 0x8a;
  0x70; 0x3e; 0xb5; 0x66; 0x48; 0x03; 0xf6; 0x0e; 0x61; 0x35; 0x57; 0xb9; 0x86; 0xc1; 0x1d; 0x9e;
  0xe1; 0xf8; 0x98; 0x11; 0x69; 0xd9; 0x8e; 0x94; 0x9b; 0x1e; 0x87; 0xe9; 0xce; 0x55; 0x28; 0xdf;
  0x8c; 0xa1; 0x89; 0x0d; 0xbf; 0xe6; 0x42; 0x68; 0x41; 0x99; 0x2d; 0x0f; 0xb0; 0x54; 0xbb; 0x16].

Definition SB2 : list Z := [
  0xe2; 0x4e; 0x54; 0xfc; 0x94; 0xc2; 0x4a; 0xcc; 0x62; 0x0d; 0x6a; 0x46; 0x3c; 0x4d; 0x8b; 0xd1;
  0x5e; 0xfa; 0x64; 0xcb; 0xb4; 0x97; 0xbe; 0x2b; 0xbc; 0x77; 0x2e; 0x03; 0xd3; 0x19; 0x59; 0xc1;
  0x1d; 0x06; 0x41; 0x6b; 0x55; 0xf0; 0x99; 0x69; 0xea; 0x9c; 0x18; 0xae; 0x63; 0xdf; 0xe7; 0xbb;
  0x00; 0x73; 0x66; 0xfb; 0x96; 0x4c; 0x85; 0xe4; 0x3a; 0x09; 0x45; 0xaa; 0x0f; 0xee; 0x10; 0xeb;
  0x2d; 0x7f; 0xf4; 0x29; 0xac; 0xcf; 0xad; 0x91; 0x8d; 0x78; 0xc8; 0x95; 0xf9; 0x2f; 0xce; 0xcd;
  0x08; 0x7a; 0x88; 0x38; 0x5c; 0x83; 0x2a; 0x28; 0x47; 0xdb; 0xb8; 0xc7; 0x93; 0xa4; 0x12; 0x53;
  0xff; 0x87; 0x0e; 0x31; 0x36; 0x21; 0x58; 0x48; 0x01; 0x8e; 0x37; 0x74; 0x32; 0xca; 0xe9; 0xb1;
  0xb7; 0xab; 0x0c; 0xd7; 0xc4; 0x56; 0x42; 0x26; 0x07; 0x98; 0x60; 0xd9; 0xb6; 0xb9; 0x11; 0x40;
  0xec; 0x20; 0x8c; 0xbd; 0xa0; 0xc9; 0x84; 0x04; 0x49; 0x23; 0xf1; 0x4f; 0x50; 0x1f; 0x13; 0xdc;
  0xd8; 0xc0; 0x9e; 0x57; 0xe3; 0xc3; 0x7b; 0x65; 0x3b; 0x02; 0x8f; 0x3e; 0xe8; 0x25; 0x92; 0xe5;
  0x15; 0xdd; 0xfd; 0x17; 0xa9; 0xbf; 0xd4; 0x9a; 0x7e; 0xc5; 0x39; 0x67; 0xfe; 0x76; 0x9d; 0x43;
  0xa7; 0xe1; 0xd0; 0xf5; 0x68; 0xf2; 0x1b; 0x34; 0x70; 0x05; 0xa3; 0x8a; 0xd5; 0x79; 0x86; 0xa8;
  0x30; 0xc6; 0x51; 0x4b; 0x1e; 0xa6; 0x27; 0xf6; 0x35; 0xd2; 0x6e; 0x24; 0x16; 0x82; 0x5f; 0xda;
  0xe6; 0x75; 0xa2; 0xef; 0x2c; 0xb2; 0x1c; 0x9f; 0x5d; 0x6f; 0x80; 0x0a; 0x72; 0x44; 0x9b; 0x6c;
  0x90; 0x0b; 0x5b; 0x33; 0x7d; 0x5a; 0x52; 0xf3; 0x61; 0xa1; 0xf7; 0xb0; 0xd6; 0x3f; 0x7c; 0x6d;
  0xed; 0x14; 0xe0; 0xa5; 0x3d; 0x22; 0xb3; 0xf8; 0x89; 0xde; 0x71; 0x1a; 0xaf; 0xba; 0xb5; 0x81].

Definition SB3 : list Z := [
  0x52; 0x09; 0x6a; 0xd5; 0x30; 0x36; 0xa5; 0x38; 0xbf; 0x40; 0xa3; 0x9e; 0x81; 0xf3; 0xd7; 0xfb;
  0x7c; 0xe3; 0x39; 0x82; 0x9b; 0x2f; 0xff; 0x87; 0x34; 0x8e; 0x43; 0x44; 0xc4; 0xde; 0xe9; 0xcb;
  0x54; 0x7b; 0x94; 0x32; 0xa6; 0xc2; 0x23; 0x3d; 0xee; 0x4c; 0x95; 0x0b; 0x42; 0xfa; 0xc3; 0x4e;
  0x08; 0x2e; 0xa1; 0x66; 0x28; 0xd9; 0x24; 0xb2; 0x76; 0x5b; 0xa2; 0x49; 0x6d; 0x8b; 0xd1; 0x25;
  0x72; 0xf8; 0xf6; 0x64; 0x86; 0x68; 0x98; 0x16; 0xd4; 0xa4; 0x5c; 0xcc; 0x5d; 0x65; 0xb6; 0x92;
  0x6c; 0x70; 0x48; 0x50; 0xfd; 0xed; 0xb9; 0xda; 0x5e; 0x15; 0x46; 0x57; 0xa7; 0x8d; 0x9d; 0x84;
  0x90; 0xd8; 0xab; 0x00; 0x8c; 0xbc; 0xd3; 0x0a; 0xf7; 0xe4; 0x58; 0x05; 0xb8; 0xb3; 0x45; 0x06;
  0xd0; 0x2c; 0x1e; 0x8f; 0xca; 0x3f; 0x0f; 0x02; 0xc1; 0xaf; 0xbd; 0x03; 0x01; 0x13; 0x8a; 0x6b;
  0x3a; 0x91; 0x11; 0x41; 0x4f; 0x67; 0xdc; 0xea; 0x97; 0xf2; 0xcf; 0xce; 0xf0; 0xb4; 0xe6; 0x73;
  0x96; 0xac; 0x74; 0x22; 0xe7; 0xad; 0x35; 0x85; 0xe2; 0xf9; 0x37; 0xe8; 0x1c; 0x75; 0xdf; 0x6e;
  0x47; 0xf1; 0x1a; 0x71; 0x1d; 0x29; 0xc5; 0x89; 0x6f; 0xb7; 0x62; 0x0e; 0xaa; 0x18; 0xbe; 0x1b;
  0xfc; 0x56; 0x3e; 0x4b; 0xc6; 0xd2; 0x79; 0x20; 0x9a; 0xdb; 0xc0; 0xfe; 0x78; 0xcd; 0x5a; 0xf4;
  0x1f; 0xdd; 0xa8; 0x33; 0x88; 0x07; 0xc7; 0x31; 0xb1; 0x12; 0x10; 0x59; 0x27; 0x80; 0xec; 0x5f;
  0x60; 0x51; 0x7f; 0xa9; 0x19; 0xb5; 0x4a; 0x0d; 0x2d; 0xe5; 0x7a; 0x9f; 0x93; 0xc9; 0x9c; 0xef;
  0xa0; 0xe0; 0x3b; 0x4d; 0xae; 0x2a; 0xf5; 0xb0; 0xc8; 0xeb; 0xbb; 0x3c; 0x83; 0x53; 0x99; 0x61;
  0x17; 0x2b; 0x04; 0x7e; 0xba; 0x77; 0xd6; 0x26; 0xe1; 0x69; 0x14; 0x63; 0x55; 0x21; 0x0c; 0x7d].

Definition SB4 : list Z := [
  0x30; 0x68; 0x99; 0x1b; 0x87; 0xb9; 0x21; 0x78; 0x50; 0x39; 0xdb; 0xe1; 0x72; 0x09; 0x62; 0x3c;
  0x3e; 0x7e; 0x5e; 0x8e; 0xf1; 0xa0; 0xcc; 0xa3; 0x2a; 0x1d; 0xfb; 0xb6; 0xd6; 0x20; 0xc4; 0x8d;
  0x81; 0x65; 0xf5; 0x89; 0xcb; 0x9d; 0x77; 0xc6; 0x57; 0x43; 0x56; 0x17; 0xd4; 0x40; 0x1a; 0x4d;
  0xc0; 0x63; 0x6c; 0xe3; 0xb7; 0xc8; 0x64; 0x6a; 0x53; 0xaa; 0x38; 0x98; 0x0c; 0xf4; 0x9b; 0xed;
  0x7f; 0x22; 0x76; 0xaf; 0xdd; 0x3a; 0x0b; 0x58; 0x67; 0x88; 0x06; 0xc3; 0x35; 0x0d; 0x01; 0x8b;
  0x8c; 0xc2; 0xe6; 0x5f; 0x02; 0x24; 0x75; 0x93; 0x66; 0x1e; 0xe5; 0xe2; 0x54; 0xd8; 0x10; 0xce;
  0x7a; 0xe8; 0x08; 0x2c; 0x12; 0x97; 0x32; 0xab; 0xb4; 0x27; 0x0a; 0x23; 0xdf; 0xef; 0xca; 0xd9;
  0xb8; 0xfa; 0xdc; 0x31; 0x6b; 0xd1; 0xad; 0x19; 0x49; 0xbd; 0x51; 0x96; 0xee; 0xe4; 0xa8; 0x41;
  0xda; 0xff; 0xcd; 0x55; 0x86; 0x36; 0xbe; 0x61; 0x52; 0xf8; 0xbb; 0x0e; 0x82; 0x48; 0x69; 0x9a;
  0xe0; 0x47; 0x9e; 0x5c; 0x04; 0x4b; 0x34; 0x15; 0x79; 0x26; 0xa7; 0xde; 0x29; 0xae; 0x92; 0xd7;
  0x84; 0xe9; 0xd2; 0xba; 0x5d; 0xf3; 0xc5; 0xb0; 0xbf; 0xa4; 0x3b; 0x71; 0x44; 0x46; 0x2b; 0xfc;
  0xeb; 0x6f; 0xd5; 0xf6; 0x14; 0xfe; 0x7c; 0x70; 0x5a; 0x7d; 0xfd; 0x2f; 0x18; 0x83; 0x16; 0xa5;
  0x91; 0x1f; 0x05; 0x95; 0x74; 0xa9; 0xc1; 0x5b; 0x4a; 0x85; 0x6d; 0x13; 0x07; 0x4f; 0x4e; 0x45;
  0xb2; 0x0f; 0xc9; 0x1c; 0xa6; 0xbc; 0xec; 0x73; 0x90; 0x7b; 0xcf; 0x59; 0x8f; 0xa1; 0xf9; 0x2d;
  0xf2; 0xb1; 0x00; 0x94; 0x37; 0x9f; 0xd0; 0x2e; 0x9c; 0x6e; 0x28; 0x3f; 0x80; 0xf0; 0x3d; 0xd3;
  0x25; 0x8a; 0xb5; 0xe7; 0x42; 0xb3; 0xc7; 0xea; 0xf7; 0x4c; 0x11; 0x33; 0x03; 0xa2; 0xac; 0x60].

(** [XOR_128(y, x)]: [y ^= x], returned as the new [y]. *)
Definition XOR_128 (y x : w128) : w128 :=
  mk128 (Z.lxor (q0 y) (q0 x)) (Z.lxor (q1 y) (q1 x))
        (Z.lxor (q2 y) (q2 x)) (Z.lxor (q3 y) (q3 x)).

(** [ROL_128(y, x, n)] for [0 < n < 32]. *)
Definition ROL_128 (x : w128) (n : Z) : w128 :=
  mk128 (u32 (Z.lor (Z.shiftl (q0 x) n) (Z.shiftr (q1 x) (32 - n))))
        (u32 (Z.lor (Z.shiftl (q1 x) n) (Z.shiftr (q2 x) (32 - n))))
        (u32 (Z.lor (Z.shiftl (q2 x) n) (Z.shiftr (q3 x) (32 - n))))
        (u32 (Z.lor (Z.shiftl (q3 x) n) (Z.shiftr (q0 x) (32 - n)))).

(** [ROR_128(y, x, n)] for [0 < n < 32]. *)
Definition ROR_128 (x : w128) (n : Z) : w128 :=
  mk128 (u32 (Z.lor (Z.shiftr (q0 x) n) (Z.shiftl (q3 x) (32 - n))))
        (u32 (Z.lor (Z.shiftr (q1 x) n) (Z.shiftl (q0 x) (32 - n))))
        (u32 (Z.lor (Z.shiftr (q2 x) n) (Z.shiftl (q1 x) (32 - n))))
        (u32 (Z.lor (Z.shiftr (q3 x) n) (Z.shiftl (q2 x) (32 - n)))).

(** Four bytes (most significant first) put back into an [unsigned __int32]:
    [a << 24 | b << 16 | c << 8 | d], the output expression of [SL1], [SL2]
    and [A]. *)
Definition word_of_bytes (a b c d : Z) : Z :=
  u32 (Z.lor (Z.lor (Z.lor (Z.shiftl a 24) (Z.shiftl b 16)) (Z.shiftl c 8)) d).

(** One word of [SL1]: [SB1], [SB2], [SB3], [SB4] on the bytes, high to low. *)
Definition SL1_word (x : Z) : Z :=
  word_of_bytes (lookup SB1 (u8 (Z.shiftr x 24))) (lookup SB2 (u8 (Z.shiftr x 16)))
                (lookup SB3 (u8 (Z.shiftr x 8))) (lookup SB4 (u8 (Z.shiftr x 0))).

Definition SL2_word (x : Z) : Z :=
  word_of_bytes (lookup SB3 (u8 (Z.shiftr x 24))) (lookup SB4 (u8 (Z.shiftr x 16)))
                (lookup SB1 (u8 (Z.shiftr x 8))) (lookup SB2 (u8 (Z.shiftr x 0))).

Definition SL1 (input : w128) : w128 :=
  mk128 (SL1_word (q0 input)) (SL1_word (q1 input))
        (SL1_word (q2 input)) (SL1_word (q3 input)).

Definition SL2 (input : w128) : w128 :=
  mk128 (SL2_word (q0 input)) (SL2_word (q1 input))
        (SL2_word (q2 input)) (SL2_word (q3 input)).

(** The diffusion layer [A]. *)
Definition A (input : w128) : w128 :=
  let x0 := u8 (Z.shiftr (q0 input) 24) in
  let x1 := u8 (Z.shiftr (q0 input) 16) in
  let x2 := u8 (Z.shiftr (q0 input) 8) in
  let x3 := u8 (q0 input) in
  let x4 := u8 (Z.shiftr (q1 input) 24) in
  let x5 := u8 (Z.shiftr (q1 input) 16) in
  let x6 := u8 (Z.shiftr (q1 input) 8) in
  let x7 := u8 (q1 input) in
  let x8 := u8 (Z.shiftr (q2 input) 24) in
  let x9 := u8 (Z.shiftr (q2 input) 16) in
  let x10 := u8 (Z.shiftr (q2 input) 8) in
  let x11 := u8 (q2 input) in
  let x12 := u8 (Z.shiftr (q3 input) 24) in
  let x13 := u8 (Z.shiftr (q3 input) 16) in
  let x14 := u8 (Z.shiftr (q3 input) 8) in
  let x15 := u8 (q3 input) in
  let y0 := u8 (Z.lxor (Z.lxor (Z.lxor (Z.lxor (Z.lxor (Z.lxor x3 x4) x6) x8) x9) x13) x14) in
  let y1 := u8 (Z.lxor (Z.lxor (Z.lxor (Z.lxor (Z.lxor (Z.lxor x2 x5) x7) x8) x9) x12) x15) in
  let y2 := u8 (Z.lxor (Z.lxor (Z.lxor (Z.lxor (Z.lxor (Z.lxor x1 x4) x6) x10) x11) x12) x15) in
  let y3 := u8 (Z.lxor (Z.lxor (Z.lxor (Z.lxor (Z.lxor (Z.lxor x0 x5) x7) x10) x11) x13) x14) in
  let y4 := u8 (Z.lxor (Z.lxor (Z.lxor (Z.lxor (Z.lxor (Z.lxor x0 x2) x5) x8) x11) x14) x15) in
  let y5 := u8 (Z.lxor (Z.lxor (Z.lxor (Z.lxor (Z.lxor (Z.lxor x1 x3) x4) x9) x10) x14) x15) in
  let y6 := u8 (Z.lxor (Z.lxor (Z.lxor (Z.lxor (Z.lxor (Z.lxor x0 x2) x7) x9) x10) x12) x13) in
  let y7 := u8 (Z.lxor (Z.lxor (Z.lxor (Z.lxor (Z.lxor (Z.lxor x1 x3) x6) x8) x11) x12) x13) in
  let y8 := u8 (Z.lxor (Z.lxor (Z.lxor (Z.lxor (Z.lxor (Z.lxor x0 x1) x4) x7) x10) x13) x15) in
  let y9 := u8 (Z.lxor (Z.lxor (Z.lxor (Z.lxor (Z.lxor (Z.lxor x0 x1) x5) x6) x11) x12) x14) in
  let y10 := u8 (Z.lxor (Z.lxor (Z.lxor (Z.lxor (Z.lxor (Z.lxor x2 x3) x5) x6) x8) x13) x15) in
  let y11 := u8 (Z.lxor (Z.lxor (Z.lxor (Z.lxor (Z.lxor (Z.lxor x2 x3) x4) x7) x9) x12) x14) in
  let y12 := u8 (Z.lxor (Z.lxor (Z.lxor (Z.lxor (Z.lxor (Z.lxor x1 x2) x6) x7) x9) x11) x12) in
  let y13 := u8 (Z.lxor (Z.lxor (Z.lxor (Z.lxor (Z.lxor (Z.lxor x0 x3) x6) x7) x8) x10) x13) in
  let y14 := u8 (Z.lxor (Z.lxor (Z.lxor (Z.lxor (Z.lxor (Z.lxor x0 x3) x4) x5) x9) x11) x14) in
  let y15 := u8 (Z.lxor (Z.lxor (Z.lxor (Z.lxor (Z.lxor (Z.lxor x1 x2) x4) x5) x8) x10) x15) in
  mk128 (word_of_bytes y0 y1 y2 y3) (word_of_bytes y4 y5 y6 y7)
        (word_of_bytes y8 y9 y10 y11) (word_of_bytes y12 y13 y14 y15).

(** [FO(D, RK, output)] = A(SL1(D ^ RK)); [FE] = A(SL2(D ^ RK)). *)
Definition FO (D RK : w128) : w128 := A (SL1 (XOR_128 D RK)).
Definition FE (D RK : w128) : w128 := A (SL2 (XOR_128 D RK)).

(** The global registers and key arrays of ARIA.c. *)
Record state := mkState {
  W0 : w128; W1 : w128; W2 : w128; W3 : w128;
  ek1 : w128; ek2 : w128; ek3 : w128; ek4 : w128; ek5 : w128; ek6 : w128; ek7 : w128;
  ek8 : w128; ek9 : w128; ek10 : w128; ek11 : w128; ek12 : w128; ek13 : w128;
  dk1 : w128; dk2 : w128; dk3 : w128; dk4 : w128; dk5 : w128; dk6 : w128; dk7 : w128;
  dk8 : w128; dk9 : w128; dk10 : w128; dk11 : w128; dk12 : w128; dk13 : w128 }.

(** Zero-initialised globals at program start. *)
Definition zero128 := mk128 0 0 0 0.
Definition initial_state : state :=
  mkState zero128 zero128 zero128 zero128
    zero128 zero128 zero128 zero128 zero128 zero128 zero128
    zero128 zero128 zero128 zero128 zero128 zero128
    zero128 zero128 zero128 zero128 zero128 zero128 zero128
    zero128 zero128 zero128 zero128 zero128 zero128.

(** [generateEncryptionKeys()]: writes ek1..ek13 from W0..W3. *)
Definition generateEncryptionKeys (s : state) : state :=
  let w0 := W0 s in let w1 := W1 s in let w2 := W2 s in let w3 := W3 s in
  {| W0 := w0; W1 := w1; W2 := w2; W3 := w3;
     ek1 := XOR_128 (ROR_128 w1 19) w0;
     ek2 := XOR_128 (ROR_128 w2 19) w1;
     ek3 := XOR_128 (ROR_128 w3 19) w2;
     ek4 := XOR_128 (ROR_128 w0 19) w3;
     ek5 := XOR_128 (ROR_128 w1 31) w0;
     ek6 := XOR_128 (ROR_128 w2 31) w1;
     ek7 := XOR_128 (ROR_128 w3 31) w2;
     ek8 := XOR_128 (ROR_128 w0 31) w3;
     ek9 := XOR_128 (ROL_128 (ROL_128 w1 31) 30) w0;
     ek10 := XOR_128 (ROL_128 (ROL_128 w2 31) 30) w1;
     ek11 := XOR_128 (ROL_128 (ROL_128 w3 31) 30) w2;
     ek12 := XOR_128 (ROL_128 (ROL_128 w0 31) 30) w3;
     ek13 := XOR_128 (ROL_128 w1 31) w0;
     dk1 := dk1 s; dk2 := dk2 s; dk3 := dk3 s; dk4 := dk4 s; dk5 := dk5 s;
     dk6 := dk6 s; dk7 := dk7 s; dk8 := dk8 s; dk9 := dk9 s; dk10 := dk10 s;
     dk11 := dk11 s; dk12 := dk12 s; dk13 := dk13 s |}.

(** [generateDecryptionKeys()]: writes dk1..dk13 from ek1..ek13 only. *)
Definition generateDecryptionKeys (s : state) : state :=
  {| W0 := W0 s; W1 := W1 s; W2 := W2 s; W3 := W3 s;
     ek1 := ek1 s; ek2 := ek2 s; ek3 := ek3 s; ek4 := ek4 s; ek5 := ek5 s;
     ek6 := ek6 s; ek7 := ek7 s; ek8 := ek8 s; ek9 := ek9 s; ek10 := ek10 s;
     ek11 := ek11 s; ek12 := ek12 s; ek13 := ek13 s;
     dk1 := ek13 s;
     dk2 := A (ek12 s); dk3 := A (ek11 s); dk4 := A (ek10 s); dk5 := A (ek9 s);
     dk6 := A (ek8 s); dk7 := A (ek7 s); dk8 := A (ek6 s); dk9 := A (ek5 s);
     dk10 := A (ek4 s); dk11 := A (ek3 s); dk12 := A (ek2 s);
     dk13 := ek1 s |}.

(** Writes to the W registers. *)
Definition set_W (s : state) (w0 w1 w2 w3 : w128) : state :=
  {| W0 := w0; W1 := w1; W2 := w2; W3 := w3;
     ek1 := ek1 s; ek2 := ek2 s; ek3 := ek3 s; ek4 := ek4 s; ek5 := ek5 s;
     ek6 := ek6 s; ek7 := ek7 s; ek8 := ek8 s; ek9 := ek9 s; ek10 := ek10 s;
     ek11 := ek11 s; ek12 := ek12 s; ek13 := ek13 s;
     dk1 := dk1 s; dk2 := dk2 s; dk3 := dk3 s; dk4 := dk4 s; dk5 := dk5 s;
     dk6 := dk6 s; dk7 := dk7 s; dk8 := dk8 s; dk9 := dk9 s; dk10 := dk10 s;
     dk11 := dk11 s; dk12 := dk12 s; dk13 := dk13 s |}.

(** The twelve rounds shared by encryption and decryption, with round keys
    k1..k13. *)
Definition rounds (block k1 k2 k3 k4 k5 k6 k7 k8 k9 k10 k11 k12 k13 : w128) : w128 :=
  let P := FO block k1 in
  let P := FE P k2 in
  let P := FO P k3 in
  let P := FE P k4 in
  let P := FO P k5 in
  let P := FE P k6 in
  let P := FO P k7 in
  let P := FE P k8 in
  let P := FO P k9 in
  let P := FE P k10 in
  let P := FO P k11 in
  let P := XOR_128 P k12 in
  let P := SL2 P in
  XOR_128 P k13.

(** [ARIA_encrypt(block, key, P)]: returns the new globals and [P]. *)
Definition ARIA_encrypt (s : state) (block key : w128) : state * w128 :=
  let w0 := key in
  let w1 := XOR_128 (FO w0 CK1) KR in
  let w2 := XOR_128 (FE w1 CK2) w0 in
  let w3 := XOR_128 (FO w2 CK3) w1 in
  let s := generateEncryptionKeys (set_W s w0 w1 w2 w3) in
  (s, rounds block (ek1 s) (ek2 s) (ek3 s) (ek4 s) (ek5 s) (ek6 s) (ek7 s)
             (ek8 s) (ek9 s) (ek10 s) (ek11 s) (ek12 s) (ek13 s)).

(** [ARIA_decrypt(block, key, P)]: as in the source, the third transform is
    written back into W2 ([FO(W2, CK3, W2)]) and W3 is XORed in place with
    W1; no encryption keys are generated. *)
Definition ARIA_decrypt (s : state) (block key : w128) : state * w128 :=
  let w0 := key in
  let w1 := XOR_128 (FO w0 CK1) KR in
  let w2 := XOR_128 (FE w1 CK2) w0 in
  let w2' := FO w2 CK3 in
  let w3 := XOR_128 (W3 s) w1 in
  let s := generateDecryptionKeys (set_W s w0 w1 w2' w3) in
  (s, rounds block (dk1 s) (dk2 s) (dk3 s) (dk4 s) (dk5 s) (dk6 s) (dk7 s)
             (dk8 s) (dk9 s) (dk10 s) (dk11 s) (dk12 s) (dk13 s)).

End ARIA.

(** ** PRESENT (src/algorithms/PRESENT/PRESENT.c) *)
Module PRESENT.

Definition NR_ROUNDS : nat := 31.

Definition sbox : list Z :=
  [0xc; 0x5; 0x6; 0xb; 0x9; 0x0; 0xa; 0xd; 0x3; 0xe; 0xf; 0x8; 0x4; 0x7; 0x1; 0x2].

Definition isbox : list Z :=
  [0x5; 0xe; 0xf; 0x8; 0xc; 0x1; 0x2; 0xd; 0xb; 0x4; 0x6; 0x3; 0x0; 0x7; 0x9; 0xa].

Definition p : list Z := [
  0; 16; 32; 48; 1; 17; 33; 49; 2; 18; 34; 50; 3; 19; 35; 51;
  4; 20; 36; 52; 5; 21; 37; 53; 6; 22; 38; 54; 7; 23; 39; 55;
  8; 24; 40; 56; 9; 25; 41; 57; 10; 26; 42; 58; 11; 27; 43; 59;
  12; 28; 44; 60; 13; 29; 45; 61; 14; 30; 46; 62; 15; 31; 47; 63].

(** [PresentContext]: the 32 round keys. *)
Definition context := list Z.

(** 80-bit branch, loop [for (i = 1; i <= NR_ROUNDS; i++)] from counter [i],
    [n] iterations left; returns the round keys it saves, in order. *)
Fixpoint schedule80 (i : Z) (n : nat) (keyHigh keyLow : Z) : list Z :=
  match n with
  | O => []
  | S n' =>
      let temp := keyHigh in
      let keyHigh := Z.land (Z.shiftr keyLow 3) 0xffff in
      let keyLow := u64 (Z.lor (Z.lor (Z.shiftl keyLow 61) (Z.shiftl temp 45))
                               (Z.shiftr keyLow 19)) in
      let temp := lookup sbox (Z.land (Z.shiftr keyHigh 12) 0xf) in
      let keyHigh := Z.lor (Z.land keyHigh 0x0fff) (Z.shiftl temp 12) in
      let keyLow := Z.lxor keyLow (u64 (Z.shiftl i 15)) in
      u64 (Z.lor (Z.shiftl keyHigh 48) (Z.shiftr keyLow 16))
        :: schedule80 (i + 1) n' keyHigh keyLow
  end.

(** 128-bit branch, same loop shape. *)
Fixpoint schedule128 (i : Z) (n : nat) (keyHigh keyLow : Z) : list Z :=
  match n with
  | O => []
  | S n' =>
      let temp := keyHigh in
      let keyHigh := u64 (Z.lor (Z.shiftl temp 61) (Z.shiftr keyLow 3)) in
      let keyLow := u64 (Z.lor (Z.shiftl keyLow 61) (Z.shiftr temp 3)) in
      let temp := lookup sbox (Z.land (Z.shiftr keyHigh 60) 0xf) in
      let keyHigh := u64 (Z.lor keyHigh (Z.shiftl temp 60)) in
      let temp := lookup sbox (Z.land (Z.shiftr keyHigh 56) 0xf) in
      let keyHigh := u64 (Z.lor keyHigh (Z.shiftl temp 56)) in
      let keyHigh := Z.lxor keyHigh (Z.shiftr i 2) in
      let keyLow := Z.lxor keyLow (u64 (Z.shiftl i 62)) in
      keyHigh :: schedule128 (i + 1) n' keyHigh keyLow
  end.

(** [PRESENT_init(context, key, keyLen)]; [key] is the [uint16_t] array. *)
Definition PRESENT_init (key : list Z) (keyLen : Z) : context :=
  let k i := nth i key 0 in
  if keyLen =? 80 then
    let keyHigh := k 0%nat in
    let keyLow := u64 (Z.lor (Z.lor (Z.lor (Z.shiftl (k 1%nat) 48) (Z.shiftl (k 2%nat) 32))
                                    (Z.shiftl (k 3%nat) 16)) (k 4%nat)) in
    u64 (Z.lor (Z.shiftl keyHigh 48) (Z.shiftr keyLow 16))
      :: schedule80 1 NR_ROUNDS keyHigh keyLow
  else
    let keyHigh := u64 (Z.lor (Z.lor (Z.lor (Z.shiftl (k 0%nat) 48) (Z.shiftl (k 1%nat) 32))
                                     (Z.shiftl (k 2%nat) 16)) (k 3%nat)) in
    let keyLow := u64 (Z.lor (Z.lor (Z.lor (Z.shiftl (k 4%nat) 48) (Z.shiftl (k 5%nat) 32))
                                    (Z.shiftl (k 6%nat) 16)) (k 7%nat)) in
    keyHigh :: schedule128 1 NR_ROUNDS keyHigh keyLow.

(** The substitution loop of encryption ([tbl = sbox]) and decryption
    ([tbl = isbox]): [for (i = 0; i < 8; i++)], counter [i], [n] left. *)
Fixpoint sBoxLayer_loop (tbl : list Z) (state : Z) (i : Z) (n : nat) (temp : Z) : Z :=
  match n with
  | O => temp
  | S n' =>
      let pos := u8 (Z.shiftr state (8 * (7 - i))) in
      let highNybble := lookup tbl (Z.land (Z.shiftr pos 4) 0x0f) in
      let lowNybble := lookup tbl (Z.land pos 0x0f) in
      let mask := Z.lor 0 (Z.lor (Z.shiftl highNybble 4) lowNybble) in
      let mask := u64 (Z.shiftl mask (56 - 8 * i)) in
      sBoxLayer_loop tbl state (i + 1) n' (Z.lor temp mask)
  end.

Definition sBoxLayer (tbl : list Z) (state : Z) : Z := sBoxLayer_loop tbl state 0 8 0.

(** The permutation loop of encryption. *)
Fixpoint pLayer_loop (state : Z) (i : Z) (n : nat) (temp : Z) : Z :=
  match n with
  | O => temp
  | S n' =>
      let distance := 63 - i in
      pLayer_loop state (i + 1) n'
        (Z.lor temp (u64 (Z.shiftl (Z.land (Z.shiftr state distance) 1) (63 - lookup p i))))
  end.

Definition pLayer (state : Z) : Z := pLayer_loop state 0 64 0.

(** The inverse permutation loop of decryption. *)
Fixpoint invPLayer_loop (state : Z) (i : Z) (n : nat) (temp : Z) : Z :=
  match n with
  | O => temp
  | S n' =>
      let distance := 63 - lookup p i in
      invPLayer_loop state (i + 1) n'
        (Z.lor (u64 (Z.shiftl temp 1)) (Z.land (Z.shiftr state distance) 1))
  end.

Definition invPLayer (state : Z) : Z := invPLayer_loop state 0 64 0.

(** A [uint16_t[4]] block. *)
Definition block := (Z * Z * Z * Z)%type.

Definition state_of_block (b : block) : Z :=
  let '(b0, b1, b2, b3) := b in
  u64 (Z.lor (Z.lor (Z.lor (Z.shiftl b0 48) (Z.shiftl b1 32)) (Z.shiftl b2 16)) b3).

Definition block_of_state (state : Z) : block :=
  (u16 (Z.shiftr state 48), u16 (Z.shiftr state 32), u16 (Z.shiftr state 16), u16 state).

(** The round loops of [PRESENT_encrypt] and [PRESENT_decrypt]: [n] runs of
    the loop body [step] with the counter [round], which the loop updates
    with [next] ([round++] or [round--]). *)
Fixpoint rounds_loop (step : nat -> Z -> Z) (next : nat -> nat)
    (round : nat) (n : nat) (state : Z) : Z :=
  match n with
  | O => state
  | S n' => rounds_loop step next (next round) n' (step round state)
  end.

(** Body of [for (round = 0; round < NR_ROUNDS; round++)]. *)
Definition encrypt_round (ctx : context) (round : nat) (state : Z) : Z :=
  let state := Z.lxor state (nth round ctx 0) in
  let state := sBoxLayer sbox state in
  pLayer state.

Definition encrypt_rounds (ctx : context) : nat -> nat -> Z -> Z :=
  rounds_loop (encrypt_round ctx) S.

(** Body of [for (round = NR_ROUNDS; round > 0; round--)]. *)
Definition decrypt_round (ctx : context) (round : nat) (state : Z) : Z :=
  let state := Z.lxor state (nth round ctx 0) in
  let state := invPLayer state in
  sBoxLayer isbox state.

Definition decrypt_rounds (ctx : context) : nat -> nat -> Z -> Z :=
  rounds_loop (decrypt_round ctx) pred.

Definition PRESENT_encrypt (ctx : context) (b : block) : block :=
  let state := encrypt_rounds ctx 0 NR_ROUNDS (state_of_block b) in
  block_of_state (Z.lxor state (nth NR_ROUNDS ctx 0)).

Definition PRESENT_decrypt (ctx : context) (b : block) : block :=
  let state := decrypt_rounds ctx NR_ROUNDS NR_ROUNDS (state_of_block b) in
  block_of_state (Z.lxor state (nth 0 ctx 0)).

End PRESENT.

(** ** SIMON (src/algorithms/SIMON/SIMON.c) *)
Module SIMON.

Definition ROL_64 (x n : Z) : Z := u64 (Z.lor (Z.shiftl x n) (Z.shiftr x (64 - n))).
Definition ROR_64 (x n : Z) : Z := u64 (Z.lor (Z.shiftr x n) (Z.shiftl x (64 - n))).

Definition f (x : Z) : Z := Z.lxor (Z.land (ROL_64 x 1) (ROL_64 x 8)) (ROL_64 x 2).

(** [R2(&x, &y, k, l)], returning the new [(x, y)]. *)
Definition R2 (x y k l : Z) : Z * Z :=
  let y := Z.lxor (Z.lxor y (f x)) k in
  let x := Z.lxor (Z.lxor x (f y)) l in
  (x, y).

(** [SimonContext]. *)
Record context := mkContext { nrSubkeys : nat; subkeys : list Z }.

Definition c : Z := 0xfffffffffffffffc.

(** Subkey recurrence loops; [ks] is the array so far (in order), [i] the next
    index, [z] the constant register. *)
Fixpoint expand128 (ks : list Z) (i : nat) (n : nat) (z : Z) : list Z :=
  match n with
  | O => ks
  | S n' =>
      let k j := nth j ks 0 in
      let ki := Z.lxor (Z.lxor (Z.lxor (Z.lxor c (Z.land z 1)) (k (i - 2)%nat))
                               (ROR_64 (k (i - 1)%nat) 3)) (ROR_64 (k (i - 1)%nat) 4) in
      expand128 (ks ++ [ki]) (S i) n' (Z.shiftr z 1)
  end.

Fixpoint expand192 (ks : list Z) (i : nat) (n : nat) (z : Z) : list Z :=
  match n with
  | O => ks
  | S n' =>
      let k j := nth j ks 0 in
      let ki := Z.lxor (Z.lxor (Z.lxor (Z.lxor c (Z.land z 1)) (k (i - 3)%nat))
                               (ROR_64 (k (i - 1)%nat) 3)) (ROR_64 (k (i - 1)%nat) 4) in
      expand192 (ks ++ [ki]) (S i) n' (Z.shiftr z 1)
  end.

Fixpoint expand256 (ks : list Z) (i : nat) (n : nat) (z : Z) : list Z :=
  match n with
  | O => ks
  | S n' =>
      let k j := nth j ks 0 in
      let ki := Z.lxor (Z.lxor (Z.lxor (Z.lxor (Z.lxor
                  (Z.lxor c (Z.land z 1)) (k (i - 4)%nat)) (ROR_64 (k (i - 1)%nat) 3))
                  (k (i - 3)%nat)) (ROR_64 (k (i - 1)%nat) 4)) (ROR_64 (k (i - 3)%nat) 1) in
      expand256 (ks ++ [ki]) (S i) n' (Z.shiftr z 1)
  end.

(** [SIMON_init(context, key, keyLen)]; [key] is the [uint64_t] array. *)
Definition SIMON_init (key : list Z) (keyLen : Z) : context :=
  let key i := nth i key 0 in
  if keyLen =? 128 then
    let ks := expand128 [key 1%nat; key 0%nat] 2 64 0x7369f885192c0ef5 in
    let k j := nth j ks 0 in
    let k66 := Z.lxor (Z.lxor (Z.lxor (Z.lxor c 1) (k 64%nat)) (ROR_64 (k 65%nat) 3))
                      (ROR_64 (k 65%nat) 4) in
    let k67 := Z.lxor (Z.lxor (Z.lxor c (k 65%nat)) (ROR_64 k66 3)) (ROR_64 k66 4) in
    mkContext 68 (ks ++ [k66; k67])
  else if keyLen =? 192 then
    let ks := expand192 [key 2%nat; key 1%nat; key 0%nat] 3 64 0xfc2ce51207a635db in
    let k j := nth j ks 0 in
    let k67 := Z.lxor (Z.lxor (Z.lxor c (k 64%nat)) (ROR_64 (k 66%nat) 3))
                      (ROR_64 (k 66%nat) 4) in
    let k68 := Z.lxor (Z.lxor (Z.lxor (Z.lxor c 1) (k 65%nat)) (ROR_64 k67 3))
                      (ROR_64 k67 4) in
    mkContext 69 (ks ++ [k67; k68])
  else
    let ks := expand256 [key 3%nat; key 2%nat; key 1%nat; key 0%nat] 4 64
                        0xfdc94c3a046d678b in
    let k j := nth j ks 0 in
    let k68 := Z.lxor (Z.lxor (Z.lxor (Z.lxor (Z.lxor c (k 64%nat)) (ROR_64 (k 67%nat) 3))
                 (k 65%nat)) (ROR_64 (k 67%nat) 4)) (ROR_64 (k 65%nat) 1) in
    let k69 := Z.lxor (Z.lxor (Z.lxor (Z.lxor (Z.lxor (Z.lxor c 1) (k 65%nat)) (ROR_64 k68 3))
                 (k 66%nat)) (ROR_64 k68 4)) (ROR_64 (k 66%nat) 1) in
    let k70 := Z.lxor (Z.lxor (Z.lxor (Z.lxor (Z.lxor c (k 66%nat)) (ROR_64 k69 3))
                 (k 67%nat)) (ROR_64 k69 4)) (ROR_64 (k 67%nat) 1) in
    let k71 := Z.lxor (Z.lxor (Z.lxor (Z.lxor (Z.lxor c (k 67%nat)) (ROR_64 k70 3))
                 k68) (ROR_64 k70 4)) (ROR_64 k68 1) in
    mkContext 72 (ks ++ [k68; k69; k70; k71]).

(** [for (i = i0; i < n; i += 2) R2(&x, &y, subkeys[i], subkeys[i + 1])],
    with [fuel] bounding the iterations. The counter [i] is a [uint8_t] in
    SIMON_encrypt; it is a [nat] here, which agrees with the code while
    [n < 256] (SIMON_init sets [n] to 68, 69 or 72); for an even [n >= 256]
    the C loop wraps and does not terminate. *)
Fixpoint encrypt_loop (sk : list Z) (fuel : nat) (i n : nat) (x y : Z) : Z * Z :=
  match fuel with
  | O => (x, y)
  | S fuel' =>
      if Nat.ltb i n then
        let '(x, y) := R2 x y (nth i sk 0) (nth (i + 1) sk 0) in
        encrypt_loop sk fuel' (i + 2) n x y
      else (x, y)
  end.

(** [for (i = i0; i >= 0; i -= 2) R2(&y, &x, subkeys[i], subkeys[i - 1])]. *)
Fixpoint decrypt_loop (sk : list Z) (fuel : nat) (i : Z) (x y : Z) : Z * Z :=
  match fuel with
  | O => (x, y)
  | S fuel' =>
      if 0 <=? i then
        let '(y, x) := R2 y x (nth (Z.to_nat i) sk 0) (nth (Z.to_nat (i - 1)) sk 0) in
        decrypt_loop sk fuel' (i - 2) x y
      else (x, y)
  end.

(** [SIMON_encrypt(context, block, out)] on [block = (block[0], block[1])]. *)
Definition SIMON_encrypt (ctx : context) (b : Z * Z) : Z * Z :=
  let '(x, y) := b in
  let sk := subkeys ctx in
  if Nat.eqb (nrSubkeys ctx) 69 then
    let '(x, y) := encrypt_loop sk 68 0 68 x y in
    let y := Z.lxor (Z.lxor y (f x)) (nth 68 sk 0) in
    (y, x)
  else encrypt_loop sk (nrSubkeys ctx) 0 (nrSubkeys ctx) x y.

Definition SIMON_decrypt (ctx : context) (b : Z * Z) : Z * Z :=
  let '(x, y) := b in
  let sk := subkeys ctx in
  if Nat.eqb (nrSubkeys ctx) 69 then
    let '(x, y) := (y, x) in
    let y := Z.lxor (Z.lxor y (nth 68 sk 0)) (f x) in
    decrypt_loop sk 68 67 x y
  else decrypt_loop sk (nrSubkeys ctx) (Z.of_nat (nrSubkeys ctx) - 1) x y.

End SIMON.

(** * Properties *)

(** ** Bit-level facts about truncation *)
Section Bits.

Lemma trunc_range w x : 0 <= w -> 0 <= trunc w x < 2 ^ w.
Proof.
  intros Hw. unfold trunc. rewrite Z.land_ones by lia.
  apply Z.mod_pos_bound. apply Z.pow_pos_nonneg; lia.
Qed.

Lemma trunc_id w x : 0 <= x < 2 ^ w -> trunc w x = x.
Proof.
  intros H. unfold trunc.
  assert (0 <= w).
  { destruct (Z.neg_nonneg_cases w) as [Hn|]; [|assumption].
    rewrite Z.pow_neg_r in H by assumption. lia. }
  rewrite Z.land_ones by lia. apply Z.mod_small; assumption.
Qed.

Lemma lxor_range w a b : 0 <= a < 2 ^ w -> 0 <= b < 2 ^ w -> 0 <= Z.lxor a b < 2 ^ w.
Proof.
  intros Ha Hb.
  assert (0 <= w).
  { destruct (Z.neg_nonneg_cases w) as [Hn|]; [|assumption].
    rewrite Z.pow_neg_r in Ha by assumption. lia. }
  rewrite <- (trunc_id w a), <- (trunc_id w b) by assumption.
  replace (Z.lxor (trunc w a) (trunc w b)) with (trunc w (Z.lxor a b)).
  - apply trunc_range; assumption.
  - unfold trunc. Z.bitblast.
Qed.

Lemma lor_range w a b : 0 <= a < 2 ^ w -> 0 <= b < 2 ^ w -> 0 <= Z.lor a b < 2 ^ w.
Proof.
  intros Ha Hb.
  assert (0 <= w).
  { destruct (Z.neg_nonneg_cases w) as [Hn|]; [|assumption].
    rewrite Z.pow_neg_r in Ha by assumption. lia. }
  rewrite <- (trunc_id w a), <- (trunc_id w b) by assumption.
  replace (Z.lor (trunc w a) (trunc w b)) with (trunc w (Z.lor a b)).
  - apply trunc_range; assumption.
  - unfold trunc. Z.bitblast.
Qed.

(** A table whose entries all lie in [0, 2^w) yields values in that range,
    also past its end (the default 0). *)
Lemma lookup_range w tbl i :
  0 <= w -> forallb (fun v => (0 <=? v) && (v <? 2 ^ w)) tbl = true ->
  0 <= lookup tbl i < 2 ^ w.
Proof.
  intros Hw H. unfold lookup.
  destruct (Nat.lt_ge_cases (Z.to_nat i) (length tbl)) as [Hl|Hl].
  - rewrite forallb_forall in H.
    specialize (H _ (nth_In tbl 0 Hl)).
    apply andb_prop in H as [H1 H2]. apply Z.leb_le in H1. apply Z.ltb_lt in H2. lia.
  - rewrite nth_overflow by assumption. split; [lia|]. apply Z.pow_pos_nonneg; lia.
Qed.

(** A property of all values [0 <= b < n] checked by enumeration. *)
Lemma forall_below (P : Z -> bool) (n : nat) :
  forallb P (map Z.of_nat (seq 0 n)) = true -> forall b, 0 <= b < Z.of_nat n -> P b = true.
Proof.
  intros H b Hb. rewrite forallb_forall in H. apply H.
  apply in_map_iff. exists (Z.to_nat b). split; [lia|].
  apply in_seq. lia.
Qed.

Lemma lxor_cancel_r a b : Z.lxor (Z.lxor a b) b = a.
Proof. rewrite Z.lxor_assoc, Z.lxor_nilpotent. apply Z.lxor_0_r. Qed.

End Bits.

Module ARIAProofs.
Import ARIA.

Definition ok32 (x : Z) : Prop := 0 <= x < 2 ^ 32.
Definition ok8 (x : Z) : Prop := 0 <= x < 2 ^ 8.

(** A 128-bit value: four [unsigned __int32] words. *)
Definition ok128 (v : w128) : Prop := ok32 (q0 v) /\ ok32 (q1 v) /\ ok32 (q2 v) /\ ok32 (q3 v).

Lemma ok8_u8 x : ok8 (u8 x).
Proof. apply trunc_range; lia. Qed.

Lemma ok32_u32 x : ok32 (u32 x).
Proof. apply trunc_range; lia. Qed.

Lemma word_of_bytes_ok a b c d : ok32 (word_of_bytes a b c d).
Proof. apply ok32_u32. Qed.

(** Byte extraction from a word built of bytes. *)
Lemma byte0_word a b c d : ok8 a -> ok8 b -> ok8 c -> ok8 d ->
  u8 (Z.shiftr (word_of_bytes a b c d) 24) = a.
Proof.
  unfold ok8, word_of_bytes. intros Ha Hb Hc Hd.
  rewrite <- (trunc_id 8 a), <- (trunc_id 8 b), <- (trunc_id 8 c), <- (trunc_id 8 d)
    by assumption.
  unfold trunc. Z.bitblast.
Qed.

Lemma byte1_word a b c d : ok8 a -> ok8 b -> ok8 c -> ok8 d ->
  u8 (Z.shiftr (word_of_bytes a b c d) 16) = b.
Proof.
  unfold ok8, word_of_bytes. intros Ha Hb Hc Hd.
  rewrite <- (trunc_id 8 a), <- (trunc_id 8 b), <- (trunc_id 8 c), <- (trunc_id 8 d)
    by assumption.
  unfold trunc. Z.bitblast.
Qed.

Lemma byte2_word a b c d : ok8 a -> ok8 b -> ok8 c -> ok8 d ->
  u8 (Z.shiftr (word_of_bytes a b c d) 8) = c.
Proof.
  unfold ok8, word_of_bytes. intros Ha Hb Hc Hd.
  rewrite <- (trunc_id 8 a), <- (trunc_id 8 b), <- (trunc_id 8 c), <- (trunc_id 8 d)
    by assumption.
  unfold trunc. Z.bitblast.
Qed.

Lemma byte3_word a b c d : ok8 a -> ok8 b -> ok8 c -> ok8 d ->
  u8 (word_of_bytes a b c d) = d.
Proof.
  unfold ok8, word_of_bytes. intros Ha Hb Hc Hd.
  rewrite <- (trunc_id 8 a), <- (trunc_id 8 b), <- (trunc_id 8 c), <- (trunc_id 8 d)
    by assumption.
  unfold trunc. Z.bitblast.
Qed.

Lemma word_bytes x : ok32 x ->
  word_of_bytes (u8 (Z.shiftr x 24)) (u8 (Z.shiftr x 16)) (u8 (Z.shiftr x 8)) (u8 x) = x.
Proof.
  unfold ok32, word_of_bytes. intros Hx.
  rewrite <- (trunc_id 32 x) at 5 by assumption.
  unfold trunc. Z.bitblast.
Qed.

Lemma word_of_bytes_lxor a b c d a' b' c' d' :
  ok8 a -> ok8 b -> ok8 c -> ok8 d -> ok8 a' -> ok8 b' -> ok8 c' -> ok8 d' ->
  Z.lxor (word_of_bytes a b c d) (word_of_bytes a' b' c' d') =
  word_of_bytes (Z.lxor a a') (Z.lxor b b') (Z.lxor c c') (Z.lxor d d').
Proof.
  unfold ok8, word_of_bytes. intros Ha Hb Hc Hd Ha' Hb' Hc' Hd'.
  rewrite <- (trunc_id 8 a), <- (trunc_id 8 b), <- (trunc_id 8 c), <- (trunc_id 8 d),
    <- (trunc_id 8 a'), <- (trunc_id 8 b'), <- (trunc_id 8 c'), <- (trunc_id 8 d')
    by assumption.
  unfold trunc. Z.bitblast.
Qed.

(** ** S-boxes *)

Lemma SB_tables_range :
  forallb (fun v => (0 <=? v) && (v <? 2 ^ 8)) SB1 = true /\
  forallb (fun v => (0 <=? v) && (v <? 2 ^ 8)) SB2 = true /\
  forallb (fun v => (0 <=? v) && (v <? 2 ^ 8)) SB3 = true /\
  forallb (fun v => (0 <=? v) && (v <? 2 ^ 8)) SB4 = true.
Proof. vm_compute. repeat split. Qed.

Lemma SB1_ok i : ok8 (lookup SB1 i).
Proof. apply lookup_range; [lia | apply SB_tables_range]. Qed.
Lemma SB2_ok i : ok8 (lookup SB2 i).
Proof. apply lookup_range; [lia | apply SB_tables_range]. Qed.
Lemma SB3_ok i : ok8 (lookup SB3 i).
Proof. apply lookup_range; [lia | apply SB_tables_range]. Qed.
Lemma SB4_ok i : ok8 (lookup SB4 i).
Proof. apply lookup_range; [lia | apply SB_tables_range]. Qed.

(** SB3 and SB4 are the inverses of SB1 and SB2, checked on all 256 bytes. *)
Lemma SB3_SB1 b : ok8 b -> lookup SB3 (lookup SB1 b) = b.
Proof.
  intros Hb. apply Z.eqb_eq.
  apply (forall_below (fun b => lookup SB3 (lookup SB1 b) =? b) 256);
    [vm_compute; reflexivity | unfold ok8 in Hb; lia].
Qed.

Lemma SB1_SB3 b : ok8 b -> lookup SB1 (lookup SB3 b) = b.
Proof.
  intros Hb. apply Z.eqb_eq.
  apply (forall_below (fun b => lookup SB1 (lookup SB3 b) =? b) 256);
    [vm_compute; reflexivity | unfold ok8 in Hb; lia].
Qed.

Lemma SB4_SB2 b : ok8 b -> lookup SB4 (lookup SB2 b) = b.
Proof.
  intros Hb. apply Z.eqb_eq.
  apply (forall_below (fun b => lookup SB4 (lookup SB2 b) =? b) 256);
    [vm_compute; reflexivity | unfold ok8 in Hb; lia].
Qed.

Lemma SB2_SB4 b : ok8 b -> lookup SB2 (lookup SB4 b) = b.
Proof.
  intros Hb. apply Z.eqb_eq.
  apply (forall_below (fun b => lookup SB2 (lookup SB4 b) =? b) 256);
    [vm_compute; reflexivity | unfold ok8 in Hb; lia].
Qed.

Ltac sb_ok :=
  match goal with
  | |- ok8 (lookup SB1 _) => apply SB1_ok
  | |- ok8 (lookup SB2 _) => apply SB2_ok
  | |- ok8 (lookup SB3 _) => apply SB3_ok
  | |- ok8 (lookup SB4 _) => apply SB4_ok
  end.

Lemma SL2_SL1_word x : ok32 x -> SL2_word (SL1_word x) = x.
Proof.
  intros Hx. unfold SL2_word, SL1_word.
  rewrite byte0_word, byte1_word, byte2_word by sb_ok.
  change (Z.shiftr (word_of_bytes ?a ?b ?c ?d) 0) with (word_of_bytes a b c d).
  rewrite byte3_word by sb_ok.
  rewrite SB3_SB1, SB4_SB2, SB1_SB3, SB2_SB4 by apply ok8_u8.
  apply word_bytes; assumption.
Qed.

Lemma SL1_SL2_word x : ok32 x -> SL1_word (SL2_word x) = x.
Proof.
  intros Hx. unfold SL2_word, SL1_word.
  rewrite byte0_word, byte1_word, byte2_word by sb_ok.
  change (Z.shiftr (word_of_bytes ?a ?b ?c ?d) 0) with (word_of_bytes a b c d).
  rewrite byte3_word by sb_ok.
  rewrite SB3_SB1, SB4_SB2, SB1_SB3, SB2_SB4 by apply ok8_u8.
  apply word_bytes; assumption.
Qed.

Lemma SL2_SL1 v : ok128 v -> SL2 (SL1 v) = v.
Proof.
  destruct v as [a b c d]. unfold ok128; cbn. intros (Ha & Hb & Hc & Hd).
  unfold SL1, SL2; cbn. rewrite !SL2_SL1_word by assumption. reflexivity.
Qed.

Lemma SL1_SL2 v : ok128 v -> SL1 (SL2 v) = v.
Proof.
  destruct v as [a b c d]. unfold ok128; cbn. intros (Ha & Hb & Hc & Hd).
  unfold SL1, SL2; cbn. rewrite !SL1_SL2_word by assumption. reflexivity.
Qed.

(** ** The diffusion layer as a byte transform *)

Record bytes16 := mkBytes16 {
  b0 : Z; b1 : Z; b2 : Z; b3 : Z; b4 : Z; b5 : Z; b6 : Z; b7 : Z;
  b8 : Z; b9 : Z; b10 : Z; b11 : Z; b12 : Z; b13 : Z; b14 : Z; b15 : Z }.
Definition unpack (v : w128) : bytes16 :=
  mkBytes16 (u8 (Z.shiftr (q0 v) 24)) (u8 (Z.shiftr (q0 v) 16)) (u8 (Z.shiftr (q0 v) 8)) (u8 (q0 v))
            (u8 (Z.shiftr (q1 v) 24)) (u8 (Z.shiftr (q1 v) 16)) (u8 (Z.shiftr (q1 v) 8)) (u8 (q1 v))
            (u8 (Z.shiftr (q2 v) 24)) (u8 (Z.shiftr (q2 v) 16)) (u8 (Z.shiftr (q2 v) 8)) (u8 (q2 v))
            (u8 (Z.shiftr (q3 v) 24)) (u8 (Z.shiftr (q3 v) 16)) (u8 (Z.shiftr (q3 v) 8)) (u8 (q3 v)).
Definition pack (y : bytes16) : w128 :=
  mk128 (word_of_bytes (b0 y) (b1 y) (b2 y) (b3 y)) (word_of_bytes (b4 y) (b5 y) (b6 y) (b7 y))
        (word_of_bytes (b8 y) (b9 y) (b10 y) (b11 y)) (word_of_bytes (b12 y) (b13 y) (b14 y) (b15 y)).
Definition mix (x : bytes16) : bytes16 :=
  let '(mkBytes16 x0 x1 x2 x3 x4 x5 x6 x7 x8 x9 x10 x11 x12 x13 x14 x15) := x in
  mkBytes16
    (u8 (Z.lxor (Z.lxor (Z.lxor (Z.lxor (Z.lxor (Z.lxor x3 x4) x6) x8) x9) x13) x14))
    (u8 (Z.lxor (Z.lxor (Z.lxor (Z.lxor (Z.lxor (Z.lxor x2 x5) x7) x8) x9) x12) x15))
    (u8 (Z.lxor (Z.lxor (Z.lxor (Z.lxor (Z.lxor (Z.lxor x1 x4) x6) x10) x11) x12) x15))
    (u8 (Z.lxor (Z.lxor (Z.lxor (Z.lxor (Z.lxor (Z.lxor x0 x5) x7) x10) x11) x13) x14))
    (u8 (Z.lxor (Z.lxor (Z.lxor (Z.lxor (Z.lxor (Z.lxor x0 x2) x5) x8) x11) x14) x15))
    (u8 (Z.lxor (Z.lxor (Z.lxor (Z.lxor (Z.lxor (Z.lxor x1 x3) x4) x9) x10) x14) x15))
    (u8 (Z.lxor (Z.lxor (Z.lxor (Z.lxor (Z.lxor (Z.lxor x0 x2) x7) x9) x10) x12) x13))
    (u8 (Z.lxor (Z.lxor (Z.lxor (Z.lxor (Z.lxor (Z.lxor x1 x3) x6) x8) x11) x12) x13))
    (u8 (Z.lxor (Z.lxor (Z.lxor (Z.lxor (Z.lxor (Z.lxor x0 x1) x4) x7) x10) x13) x15))
    (u8 (Z.lxor (Z.lxor (Z.lxor (Z.lxor (Z.lxor (Z.lxor x0 x1) x5) x6) x11) x12) x14))
    (u8 (Z.lxor (Z.lxor (Z.lxor (Z.lxor (Z.lxor (Z.lxor x2 x3) x5) x6) x8) x13) x15))
    (u8 (Z.lxor (Z.lxor (Z.lxor (Z.lxor (Z.lxor (Z.lxor x2 x3) x4) x7) x9) x12) x14))
    (u8 (Z.lxor (Z.lxor (Z.lxor (Z.lxor (Z.lxor (Z.lxor x1 x2) x6) x7) x9) x11) x12))
    (u8 (Z.lxor (Z.lxor (Z.lxor (Z.lxor (Z.lxor (Z.lxor x0 x3) x6) x7) x8) x10) x13))
    (u8 (Z.lxor (Z.lxor (Z.lxor (Z.lxor (Z.lxor (Z.lxor x0 x3) x4) x5) x9) x11) x14))
    (u8 (Z.lxor (Z.lxor (Z.lxor (Z.lxor (Z.lxor (Z.lxor x1 x2) x4) x5) x8) x10) x15)).
Lemma A_pack v : A v = pack (mix (unpack v)).
Proof. reflexivity. Qed.
Lemma pack_ok y : ok128 (pack y).
Proof. (exact (conj (word_of_bytes_ok _ _ _ _) (conj (word_of_bytes_ok _ _ _ _)
   (conj (word_of_bytes_ok _ _ _ _) (word_of_bytes_ok _ _ _ _))))). Qed.
Definition ok_bytes (y : bytes16) : Prop :=
  ok8 (b0 y) /\ ok8 (b1 y) /\ ok8 (b2 y) /\ ok8 (b3 y) /\ ok8 (b4 y) /\ ok8 (b5 y) /\
  ok8 (b6 y) /\ ok8 (b7 y) /\ ok8 (b8 y) /\ ok8 (b9 y) /\ ok8 (b10 y) /\ ok8 (b11 y) /\
  ok8 (b12 y) /\ ok8 (b13 y) /\ ok8 (b14 y) /\ ok8 (b15 y).
Definition xor_bytes (x y : bytes16) : bytes16 :=
  mkBytes16 (Z.lxor (b0 x) (b0 y)) (Z.lxor (b1 x) (b1 y)) (Z.lxor (b2 x) (b2 y)) (Z.lxor (b3 x) (b3 y))
            (Z.lxor (b4 x) (b4 y)) (Z.lxor (b5 x) (b5 y)) (Z.lxor (b6 x) (b6 y)) (Z.lxor (b7 x) (b7 y))
            (Z.lxor (b8 x) (b8 y)) (Z.lxor (b9 x) (b9 y)) (Z.lxor (b10 x) (b10 y)) (Z.lxor (b11 x) (b11 y))
            (Z.lxor (b12 x) (b12 y)) (Z.lxor (b13 x) (b13 y)) (Z.lxor (b14 x) (b14 y)) (Z.lxor (b15 x) (b15 y)).

Lemma unpack_ok v : ok_bytes (unpack v).
Proof. unfold ok_bytes; cbn [unpack b0 b1 b2 b3 b4 b5 b6 b7 b8 b9 b10 b11 b12 b13 b14 b15].
  (repeat split; apply ok8_u8). Qed.
Lemma mix_ok y : ok_bytes (mix y).
Proof. destruct y. unfold ok_bytes, mix; cbn [b0 b1 b2 b3 b4 b5 b6 b7 b8 b9 b10 b11 b12 b13 b14 b15].
  (repeat split; apply ok8_u8). Qed.

Lemma bytes16_ext x y :
  b0 x = b0 y -> b1 x = b1 y -> b2 x = b2 y -> b3 x = b3 y ->
  b4 x = b4 y -> b5 x = b5 y -> b6 x = b6 y -> b7 x = b7 y ->
  b8 x = b8 y -> b9 x = b9 y -> b10 x = b10 y -> b11 x = b11 y ->
  b12 x = b12 y -> b13 x = b13 y -> b14 x = b14 y -> b15 x = b15 y -> x = y.
Proof. destruct x, y; cbn; intros; subst; reflexivity. Qed.
Lemma w128_ext x y : q0 x = q0 y -> q1 x = q1 y -> q2 x = q2 y -> q3 x = q3 y -> x = y.
Proof. destruct x, y; cbn; intros; subst; reflexivity. Qed.
Ltac byte_of_word :=
  match goal with
  | |- u8 (Z.shiftr (word_of_bytes _ _ _ _) 24) = _ => apply byte0_word
  | |- u8 (Z.shiftr (word_of_bytes _ _ _ _) 16) = _ => apply byte1_word
  | |- u8 (Z.shiftr (word_of_bytes _ _ _ _) 8) = _ => apply byte2_word
  | |- u8 (word_of_bytes _ _ _ _) = _ => apply byte3_word
  end.
Lemma unpack_pack y : ok_bytes y -> unpack (pack y) = y.
Proof.
  destruct y. unfold ok_bytes; cbn [b0 b1 b2 b3 b4 b5 b6 b7 b8 b9 b10 b11 b12 b13 b14 b15].
  intros (? & ? & ? & ? & ? & ? & ? & ? & ? & ? & ? & ? & ? & ? & ? & ?).
  (apply bytes16_ext; unfold unpack, pack; cbn [q0 q1 q2 q3 b0 b1 b2 b3 b4 b5 b6 b7 b8 b9 b10 b11 b12 b13 b14 b15]).
  all: byte_of_word; assumption.
Qed.
Lemma pack_unpack v : ok128 v -> pack (unpack v) = v.
Proof.
  destruct v as [a b c d]. unfold ok128; cbn [q0 q1 q2 q3]. intros (Ha & Hb & Hc & Hd).
  apply w128_ext; unfold unpack, pack; cbn [q0 q1 q2 q3 b0 b1 b2 b3 b4 b5 b6 b7 b8 b9 b10 b11 b12 b13 b14 b15];
    apply word_bytes; assumption.
Qed.

Ltac byte_ranges :=
  unfold ok8 in *;
  repeat match goal with
         | H : 0 <= ?x < 2 ^ 8 |- _ => rewrite <- (trunc_id 8 x) by exact H; clear H
         end;
  unfold trunc; Z.bitblast.

Lemma mix_mix y : ok_bytes y -> mix (mix y) = y.
Proof.
  destruct y. unfold ok_bytes; cbn [b0 b1 b2 b3 b4 b5 b6 b7 b8 b9 b10 b11 b12 b13 b14 b15].
  intros (? & ? & ? & ? & ? & ? & ? & ? & ? & ? & ? & ? & ? & ? & ? & ?).
  (apply bytes16_ext; unfold mix; cbn [b0 b1 b2 b3 b4 b5 b6 b7 b8 b9 b10 b11 b12 b13 b14 b15]; byte_ranges).
Qed.

Lemma u8_shiftr_lxor x y n : 0 <= n -> u8 (Z.shiftr (Z.lxor x y) n) = Z.lxor (u8 (Z.shiftr x n)) (u8 (Z.shiftr y n)).
Proof. intros. unfold trunc. Z.bitblast. Qed.
Lemma u8_lxor x y : u8 (Z.lxor x y) = Z.lxor (u8 x) (u8 y).
Proof. unfold trunc. Z.bitblast. Qed.

Lemma unpack_xor a b : unpack (XOR_128 a b) = xor_bytes (unpack a) (unpack b).
Proof.
  (apply bytes16_ext; unfold unpack, xor_bytes, XOR_128;
    cbn [q0 q1 q2 q3 b0 b1 b2 b3 b4 b5 b6 b7 b8 b9 b10 b11 b12 b13 b14 b15];
    first [apply u8_shiftr_lxor; lia | apply u8_lxor]).
Qed.

Lemma mix_xor x y : mix (xor_bytes x y) = xor_bytes (mix x) (mix y).
Proof.
  destruct x, y. (apply bytes16_ext; unfold mix, xor_bytes; cbn [b0 b1 b2 b3 b4 b5 b6 b7 b8 b9 b10 b11 b12 b13 b14 b15];
  unfold trunc; Z.bitblast).
Qed.

Lemma pack_xor x y : ok_bytes x -> ok_bytes y -> XOR_128 (pack x) (pack y) = pack (xor_bytes x y).
Proof.
  destruct x, y. unfold ok_bytes; cbn [b0 b1 b2 b3 b4 b5 b6 b7 b8 b9 b10 b11 b12 b13 b14 b15].
  intros (? & ? & ? & ? & ? & ? & ? & ? & ? & ? & ? & ? & ? & ? & ? & ?)
         (? & ? & ? & ? & ? & ? & ? & ? & ? & ? & ? & ? & ? & ? & ? & ?).
  (apply w128_ext; unfold pack, xor_bytes, XOR_128; cbn [q0 q1 q2 q3 b0 b1 b2 b3 b4 b5 b6 b7 b8 b9 b10 b11 b12 b13 b14 b15];
  apply word_of_bytes_lxor; assumption).
Qed.

Lemma A_linear a b : A (XOR_128 a b) = XOR_128 (A a) (A b).
Proof.
  rewrite (A_pack (XOR_128 a b)), (A_pack a), (A_pack b).
  rewrite unpack_xor, mix_xor. symmetry. apply pack_xor; apply mix_ok.
Qed.

Lemma A_A v : ok128 v -> A (A v) = v.
Proof.
  intros Hv. rewrite (A_pack (A v)), (A_pack v).
  rewrite (unpack_pack (mix (unpack v))) by apply mix_ok.
  rewrite (mix_mix (unpack v)) by apply unpack_ok. apply pack_unpack; assumption.
Qed.

Lemma ok128_intro a b c d : ok32 a -> ok32 b -> ok32 c -> ok32 d -> ok128 (mk128 a b c d).
Proof. intros. unfold ok128; cbn [q0 q1 q2 q3]. split; [|split; [|split]]; assumption. Qed.
Lemma A_ok v : ok128 (A v).
Proof. rewrite (A_pack v). apply pack_ok. Qed.
Lemma SL1_ok v : ok128 (SL1 v).
Proof. unfold SL1. apply ok128_intro; unfold SL1_word; apply word_of_bytes_ok. Qed.
Lemma SL2_ok v : ok128 (SL2 v).
Proof. unfold SL2. apply ok128_intro; unfold SL2_word; apply word_of_bytes_ok. Qed.
Lemma XOR_128_ok a b : ok128 a -> ok128 b -> ok128 (XOR_128 a b).
Proof.
  destruct a, b. unfold ok128; cbn [q0 q1 q2 q3]. intros (? & ? & ? & ?) (? & ? & ? & ?).
  unfold XOR_128; apply ok128_intro; cbn [q0 q1 q2 q3]; apply lxor_range; assumption.
Qed.
Lemma FO_ok D RK : ok128 (FO D RK).
Proof. apply A_ok. Qed.
Lemma FE_ok D RK : ok128 (FE D RK).
Proof. apply A_ok. Qed.
Lemma ROL_128_ok x n : ok128 (ROL_128 x n).
Proof. unfold ROL_128. apply ok128_intro; apply ok32_u32. Qed.
Lemma ROR_128_ok x n : ok128 (ROR_128 x n).
Proof. unfold ROR_128. apply ok128_intro; apply ok32_u32. Qed.

Lemma XOR_128_cancel_r y e : XOR_128 (XOR_128 y e) e = y.
Proof.
  destruct y, e. apply w128_ext; unfold XOR_128; cbn [q0 q1 q2 q3];
    rewrite Z.lxor_assoc, Z.lxor_nilpotent; apply Z.lxor_0_r.
Qed.

(** Undoing the last layer: FO with the last key on the ciphertext. *)
Lemma first_step X e : ok128 X -> FO (XOR_128 (SL2 X) e) e = A X.
Proof. intros HX. unfold FO. rewrite XOR_128_cancel_r, SL1_SL2 by assumption. reflexivity. Qed.

Lemma step_FE P k k' Q : ok128 P -> ok128 k -> Q = FO P k ->
  FE (A (XOR_128 Q k')) (A k') = A (XOR_128 P k).
Proof.
  intros HP Hk ->. unfold FE. rewrite A_linear. unfold FO.
  rewrite (A_A (SL1 (XOR_128 P k))) by apply SL1_ok.
  rewrite XOR_128_cancel_r, SL2_SL1 by (apply XOR_128_ok; assumption). reflexivity.
Qed.

Lemma step_FO P k k' Q : ok128 P -> ok128 k -> Q = FE P k ->
  FO (A (XOR_128 Q k')) (A k') = A (XOR_128 P k).
Proof.
  intros HP Hk ->. unfold FO. rewrite A_linear. unfold FE.
  rewrite (A_A (SL2 (XOR_128 P k))) by apply SL2_ok.
  rewrite XOR_128_cancel_r, SL1_SL2 by (apply XOR_128_ok; assumption). reflexivity.
Qed.

Lemma last_step p e1 e2 P1 : ok128 p -> ok128 e1 -> P1 = FO p e1 ->
  XOR_128 (SL2 (XOR_128 (A (XOR_128 P1 e2)) (A e2))) e1 = p.
Proof.
  intros Hp He ->. rewrite A_linear, XOR_128_cancel_r. unfold FO.
  rewrite (A_A (SL1 (XOR_128 p e1))) by apply SL1_ok.
  rewrite SL2_SL1 by (apply XOR_128_ok; assumption). apply XOR_128_cancel_r.
Qed.

Lemma rounds_inverse p e1 e2 e3 e4 e5 e6 e7 e8 e9 e10 e11 e12 e13 :
  ok128 p -> ok128 e1 -> ok128 e2 -> ok128 e3 -> ok128 e4 -> ok128 e5 -> ok128 e6 ->
  ok128 e7 -> ok128 e8 -> ok128 e9 -> ok128 e10 -> ok128 e11 -> ok128 e12 ->
  rounds (rounds p e1 e2 e3 e4 e5 e6 e7 e8 e9 e10 e11 e12 e13)
         e13 (A e12) (A e11) (A e10) (A e9) (A e8) (A e7) (A e6) (A e5) (A e4) (A e3) (A e2) e1
  = p.
Proof.
  intros Hp H1 H2 H3 H4 H5 H6 H7 H8 H9 H10 H11 H12.
  unfold rounds. cbv zeta.
  remember (FO p e1) as P1 eqn:E1. remember (FE P1 e2) as P2 eqn:E2.
  remember (FO P2 e3) as P3 eqn:E3. remember (FE P3 e4) as P4 eqn:E4.
  remember (FO P4 e5) as P5 eqn:E5. remember (FE P5 e6) as P6 eqn:E6.
  remember (FO P6 e7) as P7 eqn:E7. remember (FE P7 e8) as P8 eqn:E8.
  remember (FO P8 e9) as P9 eqn:E9. remember (FE P9 e10) as P10 eqn:E10.
  remember (FO P10 e11) as P11 eqn:E11.
  assert (HP : forall P, ok128 P -> forall e, ok128 e -> ok128 (XOR_128 P e))
    by (intros; apply XOR_128_ok; assumption).
  rewrite (first_step (XOR_128 P11 e12) e13) by (apply HP; [subst P11; apply FO_ok | assumption]).
  rewrite (step_FE P10 e11 e12 P11) by (try subst P10; first [apply FE_ok | assumption]).
  rewrite (step_FO P9 e10 e11 P10) by (try subst P9; first [apply FO_ok | assumption]).
  rewrite (step_FE P8 e9 e10 P9) by (try subst P8; first [apply FE_ok | assumption]).
  rewrite (step_FO P7 e8 e9 P8) by (try subst P7; first [apply FO_ok | assumption]).
  rewrite (step_FE P6 e7 e8 P7) by (try subst P6; first [apply FE_ok | assumption]).
  rewrite (step_FO P5 e6 e7 P6) by (try subst P5; first [apply FO_ok | assumption]).
  rewrite (step_FE P4 e5 e6 P5) by (try subst P4; first [apply FE_ok | assumption]).
  rewrite (step_FO P3 e4 e5 P4) by (try subst P3; first [apply FO_ok | assumption]).
  rewrite (step_FE P2 e3 e4 P3) by (try subst P2; first [apply FE_ok | assumption]).
  rewrite (step_FO P1 e2 e3 P2) by (try subst P1; first [apply FO_ok | assumption]).
  apply (last_step p e1 e2 P1); assumption.
Qed.

(** ** Decryption right after encryption *)

Lemma KR_ok : ok128 KR.
Proof. apply ok128_intro; unfold ok32; lia. Qed.

Ltac ok128_tac :=
  repeat first [ assumption | apply KR_ok | apply XOR_128_ok | apply ROR_128_ok
               | apply ROL_128_ok | apply A_ok | apply FO_ok | apply FE_ok ].

Lemma ARIA_decrypt_encrypt s p key : ok128 p -> ok128 key ->
  snd (ARIA_decrypt (fst (ARIA_encrypt s p key)) (snd (ARIA_encrypt s p key)) key) = p.
Proof.
  intros Hp Hk. unfold ARIA_encrypt, ARIA_decrypt. cbv zeta.
  set (w1 := XOR_128 (FO key CK1) KR).
  set (w2 := XOR_128 (FE w1 CK2) key).
  set (w3 := XOR_128 (FO w2 CK3) w1).
  assert (H1 : ok128 w1) by (subst w1; ok128_tac).
  assert (H2 : ok128 w2) by (subst w2; ok128_tac).
  assert (H3 : ok128 w3) by (subst w3; ok128_tac).
  cbn [fst snd generateEncryptionKeys generateDecryptionKeys set_W W0 W1 W2 W3
       ek1 ek2 ek3 ek4 ek5 ek6 ek7 ek8 ek9 ek10 ek11 ek12 ek13
       dk1 dk2 dk3 dk4 dk5 dk6 dk7 dk8 dk9 dk10 dk11 dk12 dk13].
  apply rounds_inverse; ok128_tac.
Qed.



(** ** ROL_128 and ROR_128 as rotations of the 128-bit value *)

Definition value128 (x : w128) : Z :=
  Z.lor (Z.shiftl (q0 x) 96) (Z.lor (Z.shiftl (q1 x) 64) (Z.lor (Z.shiftl (q2 x) 32) (q3 x))).
Definition rotl128 (v n : Z) : Z := trunc 128 (Z.lor (Z.shiftl v n) (Z.shiftr v (128 - n))).

Lemma tb_high w x j : 0 <= x < 2 ^ w -> w <= j -> Z.testbit x j = false.
Proof.
  intros Hx Hj. assert (0 <= w) by (destruct (Z.neg_nonneg_cases w); [rewrite Z.pow_neg_r in Hx; lia | assumption]).
  rewrite <- (trunc_id w x) by exact Hx. unfold trunc.
  rewrite Z.land_spec, Z.ones_spec_high by lia. apply andb_false_r.
Qed.

Ltac tb_rw :=
  repeat first
    [ rewrite Z.lor_spec | rewrite Z.land_spec
    | rewrite Z.shiftl_spec by lia | rewrite Z.shiftr_spec by lia
    | rewrite Z.ones_spec_low by lia ].

Ltac tb_leaf :=
  repeat first
    [ rewrite (Z.testbit_neg_r _ (_ - _)) by lia
    | match goal with H : 0 <= ?x < 2 ^ ?w |- context [Z.testbit ?x ?j] =>
        rewrite (tb_high w x j H) by lia end ];
  rewrite ?orb_false_l, ?orb_false_r, ?andb_true_l, ?andb_true_r.

Lemma rol_word_bit a b n j : 0 <= a < 2 ^ 32 -> 0 <= b < 2 ^ 32 -> 0 < n < 32 -> 0 <= j < 32 ->
  Z.testbit (u32 (Z.lor (Z.shiftl a n) (Z.shiftr b (32 - n)))) j
  = if j <? n then Z.testbit b (j + (32 - n)) else Z.testbit a (j - n).
Proof.
  intros Ha Hb Hn Hj. unfold trunc. tb_rw.
  destruct (Z.ltb_spec j n); tb_leaf; reflexivity.
Qed.

Lemma ror_word_bit a b n j : 0 <= a < 2 ^ 32 -> 0 <= b < 2 ^ 32 -> 0 < n < 32 -> 0 <= j < 32 ->
  Z.testbit (u32 (Z.lor (Z.shiftr a n) (Z.shiftl b (32 - n)))) j
  = if j <? 32 - n then Z.testbit a (j + n) else Z.testbit b (j - (32 - n)).
Proof.
  intros Ha Hb Hn Hj. unfold trunc. tb_rw.
  destruct (Z.ltb_spec j (32 - n)); tb_leaf; reflexivity.
Qed.

Lemma value128_bit a b c d i : ok32 a -> ok32 b -> ok32 c -> ok32 d -> 0 <= i < 128 ->
  Z.testbit (value128 (mk128 a b c d)) i
  = if i <? 32 then Z.testbit d i else if i <? 64 then Z.testbit c (i - 32)
    else if i <? 96 then Z.testbit b (i - 64) else Z.testbit a (i - 96).
Proof.
  unfold ok32, value128; cbn [q0 q1 q2 q3]. intros Ha Hb Hc Hd Hi. tb_rw.
  repeat match goal with |- context [?x <? ?y] => destruct (Z.ltb_spec x y) end;
    tb_leaf; first [reflexivity | lia].
Qed.

Lemma value128_range x : ok128 x -> 0 <= value128 x < 2 ^ 128.
Proof.
  destruct x as [a b c d]. unfold ok128, ok32, value128; cbn [q0 q1 q2 q3].
  intros (Ha & Hb & Hc & Hd).
  repeat apply lor_range; rewrite ?Z.shiftl_mul_pow2 by lia; lia.
Qed.

Lemma rotl128_bit v n m : 0 <= v < 2 ^ 128 -> 0 < n < 128 -> 0 <= m < 128 ->
  Z.testbit (rotl128 v n) m = if m <? n then Z.testbit v (m + (128 - n)) else Z.testbit v (m - n).
Proof.
  intros Hv Hn Hm. unfold rotl128, trunc. tb_rw.
  destruct (Z.ltb_spec m n); tb_leaf; reflexivity.
Qed.

Ltac rot_finish :=
  repeat match goal with |- context [?x <? ?y] => destruct (Z.ltb_spec x y); try lia end;
  f_equal; lia.

Lemma ROL_128_rotl x n : ok128 x -> 0 < n < 32 ->
  value128 (ROL_128 x n) = rotl128 (value128 x) n.
Proof.
  intros Hx Hn. pose proof (value128_range x Hx) as Hv.
  destruct x as [a b c d]. destruct Hx as (Ha & Hb & Hc & Hd). cbn [q0 q1 q2 q3] in *. unfold ok32 in Ha, Hb, Hc, Hd.
  apply Z.bits_inj'. intros m Hm.
  destruct (Z.ltb_spec m 128) as [Hm'|Hm'].
  - rewrite rotl128_bit by lia.
    unfold ROL_128; cbn [q0 q1 q2 q3].
    rewrite (value128_bit (u32 _) (u32 _) (u32 _) (u32 _) m)
      by (unfold ok32; try apply trunc_range; lia).
    destruct (Z.ltb_spec m n).
    + rewrite (value128_bit a b c d (m + (128 - n))) by (unfold ok32; lia).
      repeat match goal with |- context [?x <? ?y] => destruct (Z.ltb_spec x y); try lia end;
      rewrite rol_word_bit by (unfold ok32 in *; lia); rot_finish.
    + rewrite (value128_bit a b c d (m - n)) by (unfold ok32; lia).
      repeat match goal with |- context [?x <? ?y] => destruct (Z.ltb_spec x y); try lia end;
      rewrite rol_word_bit by (unfold ok32 in *; lia); rot_finish.
  - rewrite (tb_high 128 _ m) by (try apply value128_range, ROL_128_ok; lia).
    unfold rotl128, trunc. rewrite Z.land_spec, Z.ones_spec_high by lia.
    symmetry. apply andb_false_r.
Qed.

Lemma ROR_128_rotl x n : ok128 x -> 0 < n < 32 ->
  value128 (ROR_128 x n) = rotl128 (value128 x) (128 - n).
Proof.
  intros Hx Hn. pose proof (value128_range x Hx) as Hv.
  destruct x as [a b c d]. destruct Hx as (Ha & Hb & Hc & Hd). cbn [q0 q1 q2 q3] in *.
  unfold ok32 in Ha, Hb, Hc, Hd.
  apply Z.bits_inj'. intros m Hm.
  destruct (Z.ltb_spec m 128) as [Hm'|Hm'].
  - rewrite rotl128_bit by lia.
    unfold ROR_128; cbn [q0 q1 q2 q3].
    rewrite (value128_bit (u32 _) (u32 _) (u32 _) (u32 _) m)
      by (unfold ok32; try apply trunc_range; lia).
    destruct (Z.ltb_spec m (128 - n)).
    + rewrite (value128_bit a b c d (m + (128 - (128 - n)))) by (unfold ok32; lia).
      repeat match goal with |- context [?x <? ?y] => destruct (Z.ltb_spec x y); try lia end;
      rewrite ror_word_bit by (unfold ok32 in *; lia); rot_finish.
    + rewrite (value128_bit a b c d (m - (128 - n))) by (unfold ok32; lia).
      repeat match goal with |- context [?x <? ?y] => destruct (Z.ltb_spec x y); try lia end;
      rewrite ror_word_bit by (unfold ok32 in *; lia); rot_finish.
  - rewrite (tb_high 128 _ m) by (try apply value128_range, ROR_128_ok; lia).
    unfold rotl128, trunc. rewrite Z.land_spec, Z.ones_spec_high by lia.
    symmetry. apply andb_false_r.
Qed.

Definition rotr128 (v n : Z) : Z := rotl128 v (128 - n).

Lemma rotl128_range v n : 0 <= rotl128 v n < 2 ^ 128.
Proof. apply trunc_range. lia. Qed.

Lemma rotl128_rotl128 v a b : 0 <= v < 2 ^ 128 -> 0 < a -> 0 < b -> a + b < 128 ->
  rotl128 (rotl128 v a) b = rotl128 v (a + b).
Proof.
  intros Hv Ha Hb Hab. apply Z.bits_inj'. intros m Hm.
  destruct (Z.ltb_spec m 128) as [Hm'|Hm'].
  - rewrite (rotl128_bit (rotl128 v a) b m), (rotl128_bit v (a + b) m)
      by (try apply rotl128_range; lia).
    destruct (Z.ltb_spec m b); rewrite rotl128_bit by lia; rot_finish.
  - unfold rotl128 at 1 3, trunc. rewrite !Z.land_spec, !Z.ones_spec_high by lia.
    rewrite !andb_false_r. reflexivity.
Qed.

Lemma value128_xor a b : ok128 a -> ok128 b ->
  value128 (XOR_128 a b) = Z.lxor (value128 a) (value128 b).
Proof.
  intros Ha Hb. pose proof (value128_range a Ha). pose proof (value128_range b Hb).
  pose proof (value128_range _ (XOR_128_ok a b Ha Hb)).
  destruct a as [a0 a1 a2 a3], b as [b0 b1 b2 b3].
  destruct Ha as (Ha0 & Ha1 & Ha2 & Ha3), Hb as (Hb0 & Hb1 & Hb2 & Hb3).
  cbn [q0 q1 q2 q3] in *. unfold XOR_128 in *; cbn [q0 q1 q2 q3] in *.
  apply Z.bits_inj'. intros m Hm. rewrite Z.lxor_spec.
  destruct (Z.ltb_spec m 128).
  - rewrite !value128_bit by (unfold ok32 in *; try apply lxor_range; lia).
    repeat match goal with |- context [?x <? ?y] => destruct (Z.ltb_spec x y) end;
      apply Z.lxor_spec.
  - rewrite !(tb_high 128 _ m) by assumption. reflexivity.
Qed.

Lemma value128_ror x n : ok128 x -> 0 < n < 32 -> value128 (ROR_128 x n) = rotr128 (value128 x) n.
Proof. intros. unfold rotr128. apply ROR_128_rotl; assumption. Qed.

Lemma value128_rol2 x : ok128 x -> value128 (ROL_128 (ROL_128 x 31) 30) = rotl128 (value128 x) 61.
Proof.
  intros Hx. rewrite ROL_128_rotl, ROL_128_rotl by (try apply ROL_128_ok; auto; lia).
  apply rotl128_rotl128; [apply value128_range, Hx | lia..].
Qed.

(** X8: generateEncryptionKeys computes the thirteen keys of its comment as 128-bit values: ek1 = W0 ^ (W1 >>> 19), ..., ek9 = W0 ^ (W1 <<< 61) (two ROL_128 steps of 31 and 30), ..., ek13 = W0 ^ (W1 <<< 31). *)
Theorem generateEncryptionKeys_rotations s :
  ok128 (W0 s) -> ok128 (W1 s) -> ok128 (W2 s) -> ok128 (W3 s) ->
  let t := generateEncryptionKeys s in
  let w0 := value128 (W0 s) in let w1 := value128 (W1 s) in
  let w2 := value128 (W2 s) in let w3 := value128 (W3 s) in
  value128 (ek1 t) = Z.lxor w0 (rotr128 w1 19) /\
  value128 (ek2 t) = Z.lxor w1 (rotr128 w2 19) /\
  value128 (ek3 t) = Z.lxor w2 (rotr128 w3 19) /\
  value128 (ek4 t) = Z.lxor (rotr128 w0 19) w3 /\
  value128 (ek5 t) = Z.lxor w0 (rotr128 w1 31) /\
  value128 (ek6 t) = Z.lxor w1 (rotr128 w2 31) /\
  value128 (ek7 t) = Z.lxor w2 (rotr128 w3 31) /\
  value128 (ek8 t) = Z.lxor (rotr128 w0 31) w3 /\
  value128 (ek9 t) = Z.lxor w0 (rotl128 w1 61) /\
  value128 (ek10 t) = Z.lxor w1 (rotl128 w2 61) /\
  value128 (ek11 t) = Z.lxor w2 (rotl128 w3 61) /\
  value128 (ek12 t) = Z.lxor (rotl128 w0 61) w3 /\
  value128 (ek13 t) = Z.lxor w0 (rotl128 w1 31).
Proof.
  intros H0 H1 H2 H3. cbv zeta. unfold generateEncryptionKeys.
  cbn [ek1 ek2 ek3 ek4 ek5 ek6 ek7 ek8 ek9 ek10 ek11 ek12 ek13].
  repeat split; rewrite value128_xor by (try apply ROR_128_ok; try apply ROL_128_ok; assumption);
    rewrite ?value128_rol2, ?value128_ror, ?ROL_128_rotl by (assumption || lia);
    first [reflexivity | apply Z.lxor_comm].
Qed.

(** ** Further properties of the ARIA code *)

(** X1: The substitution layers SL1 and SL2 are mutual inverses on 128-bit values: SL2(SL1(v)) = v and SL1(SL2(v)) = v. *)
Theorem SL_layers_inverse v : ok128 v -> SL2 (SL1 v) = v /\ SL1 (SL2 v) = v.
Proof. intros Hv. split; [apply SL2_SL1 | apply SL1_SL2]; exact Hv. Qed.

Lemma SL_layers_inverse_witness :
  ok128 (mk128 1 2 3 4) /\ SL2 (SL1 (mk128 1 2 3 4)) = mk128 1 2 3 4 /\ SL1 (SL2 (mk128 1 2 3 4)) = mk128 1 2 3 4.
Proof.
  assert (H : ok128 (mk128 1 2 3 4)) by (vm_compute; repeat split; discriminate).
  split; [exact H | apply SL_layers_inverse; exact H].
Defined.

(** X2: The diffusion layer A distributes over XOR_128: A(a ^ b) = A(a) ^ A(b) for all inputs. *)
Theorem A_distributes_over_XOR a b : A (XOR_128 a b) = XOR_128 (A a) (A b).
Proof. apply A_linear. Qed.

(** X3: The round functions are invertible in their data input: for 128-bit D and RK, SL2(A(FO(D, RK))) ^ RK = D and SL1(A(FE(D, RK))) ^ RK = D. *)
Theorem FO_FE_invertible D RK : ok128 D -> ok128 RK ->
  XOR_128 (SL2 (A (FO D RK))) RK = D /\ XOR_128 (SL1 (A (FE D RK))) RK = D.
Proof.
  intros HD HK. unfold FO, FE.
  rewrite (A_A (SL1 (XOR_128 D RK))) by apply SL1_ok.
  rewrite (A_A (SL2 (XOR_128 D RK))) by apply SL2_ok.
  rewrite (SL2_SL1 (XOR_128 D RK)), (SL1_SL2 (XOR_128 D RK)) by (apply XOR_128_ok; assumption).
  split; apply XOR_128_cancel_r.
Qed.

Lemma FO_FE_invertible_witness :
  ok128 (mk128 1 2 3 4) /\ ok128 CK1 /\
  XOR_128 (SL2 (A (FO (mk128 1 2 3 4) CK1))) CK1 = mk128 1 2 3 4 /\
  XOR_128 (SL1 (A (FE (mk128 1 2 3 4) CK1))) CK1 = mk128 1 2 3 4.
Proof.
  assert (H1 : ok128 (mk128 1 2 3 4)) by (vm_compute; repeat split; discriminate).
  assert (H2 : ok128 CK1) by (vm_compute; repeat split; discriminate).
  split; [exact H1|]. split; [exact H2|]. apply FO_FE_invertible; assumption.
Defined.

(** X4: For any 128-bit block and round keys e1..e12, running the twelve-round sequence shared by ARIA_encrypt and ARIA_decrypt with keys e13, A(e12), ..., A(e2), e1 undoes the sequence run with e1..e13. *)
Theorem rounds_with_decryption_keys_invert p e1 e2 e3 e4 e5 e6 e7 e8 e9 e10 e11 e12 e13 :
  ok128 p -> ok128 e1 -> ok128 e2 -> ok128 e3 -> ok128 e4 -> ok128 e5 -> ok128 e6 ->
  ok128 e7 -> ok128 e8 -> ok128 e9 -> ok128 e10 -> ok128 e11 -> ok128 e12 ->
  rounds (rounds p e1 e2 e3 e4 e5 e6 e7 e8 e9 e10 e11 e12 e13)
         e13 (A e12) (A e11) (A e10) (A e9) (A e8) (A e7) (A e6) (A e5) (A e4) (A e3) (A e2) e1
  = p.
Proof. apply rounds_inverse. Qed.

Lemma rounds_with_decryption_keys_invert_witness :
  ok128 zero128 /\ ok128 CK1 /\ ok128 CK2 /\
  rounds (rounds zero128 CK1 CK2 CK1 CK2 CK1 CK2 CK1 CK2 CK1 CK2 CK1 CK2 CK3)
         CK3 (A CK2) (A CK1) (A CK2) (A CK1) (A CK2) (A CK1) (A CK2) (A CK1) (A CK2) (A CK1) (A CK2) CK1
  = zero128.
Proof.
  assert (H0 : ok128 zero128) by (vm_compute; repeat split; discriminate).
  assert (H1 : ok128 CK1) by (vm_compute; repeat split; discriminate).
  assert (H2 : ok128 CK2) by (vm_compute; repeat split; discriminate).
  split; [exact H0|]. split; [exact H1|]. split; [exact H2|].
  apply rounds_with_decryption_keys_invert; assumption.
Defined.

(** X5: The ciphertext returned by ARIA_encrypt depends only on its block and key arguments, not on the global registers left by earlier calls. *)
Theorem ARIA_encrypt_ignores_globals s1 s2 b key :
  snd (ARIA_encrypt s1 b key) = snd (ARIA_encrypt s2 b key).
Proof. reflexivity. Qed.

(** X6: Right after ARIA_encrypt(p, key) with 128-bit p and key, ARIA_decrypt of the ciphertext returns p whatever key argument it is given. *)
Theorem ARIA_decrypt_after_encrypt_any_key s p key key' : ok128 p -> ok128 key ->
  snd (ARIA_decrypt (fst (ARIA_encrypt s p key)) (snd (ARIA_encrypt s p key)) key') = p.
Proof.
  intros Hp Hk.
  assert (E : forall S C, snd (ARIA_decrypt S C key') = snd (ARIA_decrypt S C key))
    by reflexivity.
  rewrite E. apply ARIA_decrypt_encrypt; assumption.
Qed.

Lemma ARIA_decrypt_after_encrypt_any_key_witness :
  ok128 (mk128 1 2 3 4) /\ ok128 CK1 /\
  snd (ARIA_decrypt (fst (ARIA_encrypt initial_state (mk128 1 2 3 4) CK1))
                    (snd (ARIA_encrypt initial_state (mk128 1 2 3 4) CK1)) CK2) = mk128 1 2 3 4.
Proof.
  assert (H1 : ok128 (mk128 1 2 3 4)) by (vm_compute; repeat split; discriminate).
  assert (H2 : ok128 CK1) by (vm_compute; repeat split; discriminate).
  split; [exact H1|]. split; [exact H2|]. apply ARIA_decrypt_after_encrypt_any_key; assumption.
Defined.

(** X7: For 0 < n < 32, ROL_128 and ROR_128 rotate the 128-bit value x[0]..x[3] (x[0] most significant) left and right by n bits. *)
Theorem ROL_ROR_128_rotate x n : ok128 x -> 0 < n < 32 ->
  value128 (ROL_128 x n) = rotl128 (value128 x) n /\
  value128 (ROR_128 x n) = rotr128 (value128 x) n.
Proof.
  intros Hx Hn. split; [apply ROL_128_rotl | apply value128_ror]; assumption.
Qed.

Lemma ROL_ROR_128_rotate_witness :
  ok128 CK1 /\ 0 < 19 < 32 /\
  value128 (ROL_128 CK1 19) = rotl128 (value128 CK1) 19 /\
  value128 (ROR_128 CK1 19) = rotr128 (value128 CK1) 19.
Proof.
  assert (H : ok128 CK1) by (vm_compute; repeat split; discriminate).
  assert (Hn : 0 < 19 < 32) by lia.
  split; [exact H|]. split; [exact Hn|]. apply ROL_ROR_128_rotate; assumption.
Defined.

Lemma generateEncryptionKeys_rotations_witness :
  let s := set_W initial_state CK1 CK2 CK3 KR in
  ok128 (W0 s) /\ ok128 (W1 s) /\ ok128 (W2 s) /\ ok128 (W3 s) /\
  value128 (ek9 (generateEncryptionKeys s)) = Z.lxor (value128 CK1) (rotl128 (value128 CK2) 61).
Proof.
  intros s.
  assert (H0 : ok128 (W0 s)) by (vm_compute; repeat split; discriminate).
  assert (H1 : ok128 (W1 s)) by (vm_compute; repeat split; discriminate).
  assert (H2 : ok128 (W2 s)) by (vm_compute; repeat split; discriminate).
  assert (H3 : ok128 (W3 s)) by (vm_compute; repeat split; discriminate).
  do 4 (split; [assumption|]).
  destruct (generateEncryptionKeys_rotations s H0 H1 H2 H3)
    as (_ & _ & _ & _ & _ & _ & _ & _ & E9 & _).
  exact E9.
Defined.

End ARIAProofs.

Module PRESENTProofs.
Import PRESENT.

Definition ok64 (x : Z) : Prop := 0 <= x < 2 ^ 64.

Lemma testbit_u64 x m : 0 <= m -> Z.testbit (u64 x) m = (m <? 64) && Z.testbit x m.
Proof.
  intros Hm. unfold trunc. rewrite Z.land_spec, Z.testbit_ones_nonneg by lia.
  apply andb_comm.
Qed.

Lemma testbit_ok64 x m : ok64 x -> 64 <= m -> Z.testbit x m = false.
Proof.
  intros Hx Hm. unfold ok64 in Hx. rewrite <- (trunc_id 64 x) by exact Hx.
  rewrite testbit_u64 by lia. destruct (Z.ltb_spec m 64); [lia | reflexivity].
Qed.

Lemma testbit_bit s d m : 0 <= m -> Z.testbit (Z.land (Z.shiftr s d) 1) m = (m =? 0) && Z.testbit s d.
Proof.
  intros Hm. change 1 with (Z.ones 1).
  rewrite Z.land_spec, Z.testbit_ones_nonneg, Z.shiftr_spec by lia.
  destruct (Z.eqb_spec m 0).
  - subst. rewrite Z.add_0_l. destruct (Z.testbit s d); reflexivity.
  - destruct (Z.ltb_spec m 1); [lia|]. apply andb_false_r.
Qed.

Lemma pbit s d k m : 0 <= k < 64 -> 0 <= m ->
  Z.testbit (u64 (Z.shiftl (Z.land (Z.shiftr s d) 1) k)) m = (m =? k) && Z.testbit s d.
Proof.
  intros Hk Hm. rewrite testbit_u64 by lia.
  destruct (Z.ltb_spec m k).
  - rewrite Z.shiftl_spec_low by lia. destruct (Z.eqb_spec m k); [lia|]. btauto.
  - rewrite Z.shiftl_spec, testbit_bit by lia.
    destruct (Z.eqb_spec m k), (Z.eqb_spec (m - k) 0), (Z.ltb_spec m 64); try lia; btauto.
Qed.

Fixpoint zseq (i : Z) (n : nat) : list Z :=
  match n with
  | O => []
  | S n' => i :: zseq (i + 1) n'
  end.

Lemma p_range : forallb (fun v => (0 <=? v) && (v <? 2 ^ 6)) p = true.
Proof. vm_compute. reflexivity. Qed.

Lemma p_ok i : 0 <= lookup p i < 64.
Proof. apply (lookup_range 6); [lia | apply p_range]. Qed.

Lemma pLayer_loop_bit s i n temp m : 0 <= m ->
  Z.testbit (pLayer_loop s i n temp) m =
  Z.testbit temp m || existsb (fun j => (m =? 63 - lookup p j) && Z.testbit s (63 - j)) (zseq i n).
Proof.
  intros Hm. revert i temp. induction n as [|n IH]; intros i temp; cbn [pLayer_loop zseq existsb].
  - btauto.
  - rewrite IH, Z.lor_spec. pose proof (p_ok i).
    rewrite pbit by lia. btauto.
Qed.

Lemma invPLayer_step temp b m : 0 <= m ->
  Z.testbit (Z.lor (u64 (Z.shiftl temp 1)) (Z.land b 1)) m =
  if m =? 0 then Z.testbit b 0 else (m <? 64) && Z.testbit temp (m - 1).
Proof.
  intros Hm. rewrite Z.lor_spec, testbit_u64 by lia.
  change (Z.land b 1) with (Z.land (Z.shiftr b 0) 1). rewrite testbit_bit by lia.
  destruct (Z.eqb_spec m 0).
  - subst. rewrite Z.shiftl_spec_low by lia. btauto.
  - rewrite Z.shiftl_spec by lia. btauto.
Qed.

Lemma invPLayer_temp_ok temp b : ok64 temp -> ok64 (Z.lor (u64 (Z.shiftl temp 1)) (Z.land b 1)).
Proof.
  intros _. unfold ok64. apply lor_range; [apply trunc_range; lia|].
  change 1 with (Z.ones 1). rewrite Z.land_ones by lia.
  pose proof (Z.mod_pos_bound b (2 ^ 1)). change (2 ^ 1) with 2 in *. lia.
Qed.

Lemma invPLayer_loop_bit s i n temp m : ok64 temp -> Z.of_nat n <= 64 -> 0 <= m ->
  Z.testbit (invPLayer_loop s i n temp) m =
  if m <? Z.of_nat n then Z.testbit s (63 - lookup p (i + Z.of_nat n - 1 - m))
  else (m <? 64) && Z.testbit temp (m - Z.of_nat n).
Proof.
  revert i temp m. induction n as [|n IH]; intros i temp m Ht Hn Hm; cbn [invPLayer_loop].
  - destruct (Z.ltb_spec m (Z.of_nat 0)); [lia|]. rewrite Z.sub_0_r.
    destruct (Z.ltb_spec m 64); [reflexivity|]. rewrite testbit_ok64 by (assumption || lia). reflexivity.
  - rewrite IH by first [apply invPLayer_temp_ok; assumption | lia].
    destruct (Z.ltb_spec m (Z.of_nat n)), (Z.ltb_spec m (Z.of_nat (S n))); try lia.
    + f_equal. f_equal. f_equal. lia.
    + rewrite invPLayer_step by lia. destruct (Z.eqb_spec (m - Z.of_nat n) 0); [|lia].
      rewrite Z.shiftr_spec by lia. replace (i + Z.of_nat (S n) - 1 - m) with i by lia.
      replace (0 + (63 - lookup p i)) with (63 - lookup p i) by lia.
      destruct (Z.ltb_spec m 64); [reflexivity | lia].
    + rewrite invPLayer_step by lia. destruct (Z.eqb_spec (m - Z.of_nat n) 0); [lia|].
      replace (m - Z.of_nat n - 1) with (m - Z.of_nat (S n)) by lia.
      destruct (Z.ltb_spec m 64), (Z.ltb_spec (m - Z.of_nat n) 64); try lia; reflexivity.
Qed.

Lemma in_zseq j i n : In j (zseq i n) <-> i <= j < i + Z.of_nat n.
Proof.
  revert i. induction n as [|n IH]; intros i; cbn [zseq In].
  - lia.
  - rewrite IH. lia.
Qed.

Lemma existsb_select (f g : Z -> bool) (t : Z) l :
  In t l -> (forall j, In j l -> f j = (j =? t) && g j) -> existsb f l = g t.
Proof.
  intros Ht Hf. apply eq_iff_eq_true. rewrite existsb_exists. split.
  - intros (j & Hj & Hfj). rewrite Hf in Hfj by exact Hj.
    apply andb_prop in Hfj as [He Hg]. apply Z.eqb_eq in He. subst. exact Hg.
  - intros Hg. exists t. split; [exact Ht|]. rewrite Hf by exact Ht. rewrite Z.eqb_refl. exact Hg.
Qed.

(** [p] is a permutation of 0..63: the bit that [pLayer] sends to position
    [63 - p[63 - m]] comes from position [m] only. *)
Lemma p_perm :
  forallb (fun m => forallb (fun j => Bool.eqb (63 - lookup p (63 - m) =? 63 - lookup p j) (j =? 63 - m))
                            (zseq 0 64)) (zseq 0 64) = true.
Proof. vm_compute. reflexivity. Qed.

Lemma invPLayer_pLayer s : ok64 s -> invPLayer (pLayer s) = s.
Proof.
  intros Hs. apply Z.bits_inj'. intros m Hm. unfold invPLayer.
  rewrite invPLayer_loop_bit by (unfold ok64; cbn; lia).
  change (Z.of_nat 64) with 64. destruct (Z.ltb_spec m 64).
  - unfold pLayer. pose proof (p_ok (0 + 64 - 1 - m)). rewrite pLayer_loop_bit by lia.
    rewrite Z.testbit_0_l, orb_false_l.
    rewrite (existsb_select _ (fun j => Z.testbit s (63 - j)) (63 - m)).
    + f_equal. lia.
    + apply in_zseq. lia.
    + intros j Hj. f_equal.
      pose proof p_perm as Hp. rewrite forallb_forall in Hp.
      assert (Hm' : In m (zseq 0 64)) by (apply in_zseq; cbn; lia).
      specialize (Hp m Hm'). rewrite forallb_forall in Hp.
      specialize (Hp j Hj). apply Bool.eqb_prop in Hp.
      replace (0 + 64 - 1 - m) with (63 - m) by lia. exact Hp.
  - rewrite (testbit_ok64 s m) by (assumption || lia). reflexivity.
Qed.

(** The substitution layer, unrolled: eight bytes, most significant first. *)
Definition sub (tbl : list Z) (pos : Z) : Z :=
  Z.lor (Z.shiftl (lookup tbl (Z.land (Z.shiftr pos 4) 0x0f)) 4) (lookup tbl (Z.land pos 0x0f)).

Definition join8 (a0 a1 a2 a3 a4 a5 a6 a7 : Z) : Z :=
  Z.lor (Z.lor (Z.lor (Z.lor (Z.lor (Z.lor (Z.lor (Z.lor 0
    (u64 (Z.shiftl (Z.lor 0 a0) 56))) (u64 (Z.shiftl (Z.lor 0 a1) 48)))
    (u64 (Z.shiftl (Z.lor 0 a2) 40))) (u64 (Z.shiftl (Z.lor 0 a3) 32)))
    (u64 (Z.shiftl (Z.lor 0 a4) 24))) (u64 (Z.shiftl (Z.lor 0 a5) 16)))
    (u64 (Z.shiftl (Z.lor 0 a6) 8))) (u64 (Z.shiftl (Z.lor 0 a7) 0)).

Lemma sBoxLayer_join tbl s : sBoxLayer tbl s =
  join8 (sub tbl (u8 (Z.shiftr s 56))) (sub tbl (u8 (Z.shiftr s 48)))
        (sub tbl (u8 (Z.shiftr s 40))) (sub tbl (u8 (Z.shiftr s 32)))
        (sub tbl (u8 (Z.shiftr s 24))) (sub tbl (u8 (Z.shiftr s 16)))
        (sub tbl (u8 (Z.shiftr s 8))) (sub tbl (u8 (Z.shiftr s 0))).
Proof. reflexivity. Qed.

Definition okb8 (x : Z) : Prop := 0 <= x < 2 ^ 8.

(** Bits at a concrete index: rewrite to a boolean formula, compute, decide. *)
Ltac tb_concrete :=
  repeat (rewrite ?Z.lor_spec, ?Z.land_spec, ?Z.lxor_spec, ?Z.shiftl_spec', ?Z.shiftr_spec');
  rewrite ?Z.testbit_ones_nonneg' by lia; cbn; btauto.

(** Equality of two values whose bits vanish from [Z.of_nat n] on, index by index. *)
Ltac bits_upto n :=
  apply Z.bits_inj'; intros ?m ?Hm;
  destruct (Z.ltb_spec m (Z.of_nat n)) as [?Hlt|?Hge];
  [ let H := fresh in
    assert (H : In m (zseq 0 n)) by (apply in_zseq; cbn; lia);
    cbn in H; repeat (destruct H as [<-|H]); [tb_concrete ..|contradiction]
  | cbn in Hge; rewrite ?Z.lor_spec, ?Z.land_spec, ?Z.ones_spec_high, ?Z.testbit_0_l by lia;
    rewrite ?andb_false_r; btauto ].

Lemma join8_bytes a0 a1 a2 a3 a4 a5 a6 a7 :
  okb8 a0 -> okb8 a1 -> okb8 a2 -> okb8 a3 -> okb8 a4 -> okb8 a5 -> okb8 a6 -> okb8 a7 ->
  let x := join8 a0 a1 a2 a3 a4 a5 a6 a7 in
  u8 (Z.shiftr x 56) = a0 /\ u8 (Z.shiftr x 48) = a1 /\ u8 (Z.shiftr x 40) = a2 /\
  u8 (Z.shiftr x 32) = a3 /\ u8 (Z.shiftr x 24) = a4 /\ u8 (Z.shiftr x 16) = a5 /\
  u8 (Z.shiftr x 8) = a6 /\ u8 (Z.shiftr x 0) = a7.
Proof.
  unfold okb8. intros H0 H1 H2 H3 H4 H5 H6 H7. cbv zeta. unfold join8.
  rewrite <- (trunc_id 8 a0), <- (trunc_id 8 a1), <- (trunc_id 8 a2), <- (trunc_id 8 a3),
    <- (trunc_id 8 a4), <- (trunc_id 8 a5), <- (trunc_id 8 a6), <- (trunc_id 8 a7) by assumption.
  unfold trunc. (split; [|split; [|split; [|split; [|split; [|split; [|split]]]]]]; bits_upto 8%nat).
Qed.

Lemma join8_of_bytes x : ok64 x ->
  join8 (u8 (Z.shiftr x 56)) (u8 (Z.shiftr x 48)) (u8 (Z.shiftr x 40)) (u8 (Z.shiftr x 32))
        (u8 (Z.shiftr x 24)) (u8 (Z.shiftr x 16)) (u8 (Z.shiftr x 8)) (u8 (Z.shiftr x 0)) = x.
Proof.
  unfold ok64, join8. intros Hx.
  rewrite <- (trunc_id 64 x) at 9 by exact Hx.
  unfold trunc. bits_upto 64%nat.
Qed.

Lemma sbox_tables_range :
  forallb (fun v => (0 <=? v) && (v <? 2 ^ 4)) sbox = true /\
  forallb (fun v => (0 <=? v) && (v <? 2 ^ 4)) isbox = true.
Proof. vm_compute. split; reflexivity. Qed.

Lemma sub_ok tbl b : forallb (fun v => (0 <=? v) && (v <? 2 ^ 4)) tbl = true -> okb8 (sub tbl b).
Proof.
  intros Ht. unfold sub, okb8.
  pose proof (lookup_range 4 tbl (Z.land (Z.shiftr b 4) 0x0f) ltac:(lia) Ht) as Hh.
  pose proof (lookup_range 4 tbl (Z.land b 0x0f) ltac:(lia) Ht) as Hl.
  generalize dependent (lookup tbl (Z.land (Z.shiftr b 4) 0x0f)).
  generalize dependent (lookup tbl (Z.land b 0x0f)). intros l Hl h Hh.
  rewrite <- (trunc_id 4 h), <- (trunc_id 4 l) by assumption.
  replace (Z.lor (Z.shiftl (trunc 4 h) 4) (trunc 4 l))
    with (trunc 8 (Z.lor (Z.shiftl (trunc 4 h) 4) (trunc 4 l))).
  - apply trunc_range; lia.
  - unfold trunc. Z.bitblast.
Qed.

Lemma sub_isbox_sbox b : okb8 b -> sub isbox (sub sbox b) = b.
Proof.
  intros Hb. apply Z.eqb_eq.
  apply (forall_below (fun b => sub isbox (sub sbox b) =? b) 256);
    [vm_compute; reflexivity | unfold okb8 in Hb; lia].
Qed.

Lemma okb8_u8 x : okb8 (u8 x).
Proof. apply trunc_range; lia. Qed.

Lemma sBoxLayer_inv s : ok64 s -> sBoxLayer isbox (sBoxLayer sbox s) = s.
Proof.
  intros Hs. destruct sbox_tables_range as [Hsb Hisb].
  rewrite (sBoxLayer_join sbox s), sBoxLayer_join.
  destruct (join8_bytes (sub sbox (u8 (Z.shiftr s 56))) (sub sbox (u8 (Z.shiftr s 48)))
        (sub sbox (u8 (Z.shiftr s 40))) (sub sbox (u8 (Z.shiftr s 32)))
        (sub sbox (u8 (Z.shiftr s 24))) (sub sbox (u8 (Z.shiftr s 16)))
        (sub sbox (u8 (Z.shiftr s 8))) (sub sbox (u8 (Z.shiftr s 0))))
    as (E0 & E1 & E2 & E3 & E4 & E5 & E6 & E7); try (apply sub_ok; exact Hsb).
  cbv zeta in E0, E1, E2, E3, E4, E5, E6, E7.
  rewrite E0, E1, E2, E3, E4, E5, E6, E7.
  rewrite (sub_isbox_sbox (u8 (Z.shiftr s 56))), (sub_isbox_sbox (u8 (Z.shiftr s 48))),
    (sub_isbox_sbox (u8 (Z.shiftr s 40))), (sub_isbox_sbox (u8 (Z.shiftr s 32))),
    (sub_isbox_sbox (u8 (Z.shiftr s 24))), (sub_isbox_sbox (u8 (Z.shiftr s 16))),
    (sub_isbox_sbox (u8 (Z.shiftr s 8))), (sub_isbox_sbox (u8 (Z.shiftr s 0))) by apply okb8_u8.
  apply join8_of_bytes; exact Hs.
Qed.

Ltac range64 :=
  unfold ok64;
  repeat match goal with
         | |- 0 <= Z.lor _ _ < 2 ^ 64 => apply lor_range
         | |- 0 <= Z.lxor _ _ < 2 ^ 64 => apply lxor_range
         | |- 0 <= trunc 64 _ < 2 ^ 64 => apply trunc_range; lia
         | |- 0 <= 0 < 2 ^ 64 => cbn; lia
         end.

Lemma join8_ok a0 a1 a2 a3 a4 a5 a6 a7 : ok64 (join8 a0 a1 a2 a3 a4 a5 a6 a7).
Proof. unfold join8. range64. Qed.

Lemma sBoxLayer_ok tbl s : ok64 (sBoxLayer tbl s).
Proof. rewrite sBoxLayer_join. apply join8_ok. Qed.

Lemma pLayer_loop_ok s i n temp : ok64 temp -> ok64 (pLayer_loop s i n temp).
Proof.
  revert i temp. induction n as [|n IH]; intros i temp Ht; cbn [pLayer_loop]; [exact Ht|].
  apply IH. range64. exact Ht.
Qed.

Lemma pLayer_ok s : ok64 (pLayer s).
Proof. apply pLayer_loop_ok. range64. Qed.


Definition keys_ok (ctx : context) : Prop := forall r, ok64 (nth r ctx 0).

Lemma rounds_loop_0 step next r s : rounds_loop step next r 0 s = s.
Proof. reflexivity. Qed.

Lemma rounds_loop_S step next r n s :
  rounds_loop step next r (S n) s = rounds_loop step next (next r) n (step r s).
Proof. reflexivity. Qed.

Lemma rounds_loop_last step next r n s :
  rounds_loop step next r (S n) s = step (Nat.iter n next r) (rounds_loop step next r n s).
Proof.
  revert r s. induction n as [|n IH]; intros r s; [reflexivity|].
  rewrite (rounds_loop_S step next r (S n) s), (IH (next r) (step r s)),
    (rounds_loop_S step next r n s).
  rewrite Nat.iter_succ, Nat.iter_swap. reflexivity.
Qed.

Lemma iter_pred (m n : nat) : Nat.iter n pred (m + n)%nat = m.
Proof.
  induction n as [|n IH]; [apply Nat.add_0_r|].
  rewrite Nat.iter_succ_r, Nat.add_succ_r. exact IH.
Qed.


Lemma encrypt_round_ok ctx r s : ok64 (encrypt_round ctx r s).
Proof. unfold encrypt_round. apply pLayer_ok. Qed.

Lemma decrypt_round_encrypt_round ctx r s :
  ok64 s -> ok64 (nth r ctx 0) ->
  decrypt_round ctx (S r) (Z.lxor (encrypt_round ctx r s) (nth (S r) ctx 0)) =
  Z.lxor s (nth r ctx 0).
Proof.
  intros Hs Hk. unfold decrypt_round, encrypt_round. cbv zeta.
  rewrite lxor_cancel_r, invPLayer_pLayer by apply sBoxLayer_ok.
  apply sBoxLayer_inv. range64; assumption.
Qed.

Lemma rounds_inv ctx : keys_ok ctx -> forall n r s, ok64 s ->
  decrypt_rounds ctx (r + n) n (Z.lxor (encrypt_rounds ctx r n s) (nth (r + n) ctx 0)) =
  Z.lxor s (nth r ctx 0).
Proof.
  intros Hk n. unfold decrypt_rounds, encrypt_rounds.
  induction n as [|n IH]; intros r s Hs.
  - rewrite Nat.add_0_r, !rounds_loop_0. reflexivity.
  - rewrite rounds_loop_last, rounds_loop_S.
    replace (r + S n)%nat with (S r + n)%nat by lia.
    rewrite IH by apply encrypt_round_ok.
    rewrite iter_pred.
    apply decrypt_round_encrypt_round; [exact Hs | apply Hk].
Qed.

Lemma encrypt_rounds_ok ctx r n s : ok64 s -> ok64 (encrypt_rounds ctx r n s).
Proof.
  unfold encrypt_rounds. revert r s. induction n as [|n IH]; intros r s Hs.
  - rewrite rounds_loop_0. exact Hs.
  - rewrite rounds_loop_S. apply IH, encrypt_round_ok.
Qed.

Definition ok16 (x : Z) : Prop := 0 <= x < 2 ^ 16.

Lemma state_of_block_of_state c : ok64 c -> state_of_block (block_of_state c) = c.
Proof.
  unfold ok64, state_of_block, block_of_state. intros Hc.
  rewrite <- (trunc_id 64 c) at 5 by exact Hc.
  unfold trunc. bits_upto 64%nat.
Qed.

Lemma block_of_state_of_block b0 b1 b2 b3 : ok16 b0 -> ok16 b1 -> ok16 b2 -> ok16 b3 ->
  block_of_state (state_of_block (b0, b1, b2, b3)) = (b0, b1, b2, b3).
Proof.
  unfold ok16, state_of_block, block_of_state. intros H0 H1 H2 H3.
  rewrite <- (trunc_id 16 b0), <- (trunc_id 16 b1), <- (trunc_id 16 b2), <- (trunc_id 16 b3)
    by assumption.
  apply pair_equal_spec; split; [apply pair_equal_spec; split; [apply pair_equal_spec; split|]|];
    unfold trunc; Z.bitblast.
Qed.

Lemma PRESENT_decrypt_encrypt ctx b0 b1 b2 b3 : keys_ok ctx ->
  ok16 b0 -> ok16 b1 -> ok16 b2 -> ok16 b3 ->
  PRESENT_decrypt ctx (PRESENT_encrypt ctx (b0, b1, b2, b3)) = (b0, b1, b2, b3).
Proof.
  intros Hk H0 H1 H2 H3. unfold PRESENT_encrypt, PRESENT_decrypt. cbv zeta.
  assert (Hs : ok64 (state_of_block (b0, b1, b2, b3))) by (unfold state_of_block; range64).
  rewrite state_of_block_of_state
    by (range64; [apply encrypt_rounds_ok; exact Hs | apply Hk]).
  pose proof (rounds_inv ctx Hk NR_ROUNDS 0 _ Hs) as E. cbn [Nat.add] in E.
  rewrite E, lxor_cancel_r.
  apply block_of_state_of_block; assumption.
Qed.

Lemma Forall_keys_ok l : Forall ok64 l -> keys_ok l.
Proof.
  intros H r. destruct (Nat.lt_ge_cases r (length l)) as [Hl|Hl].
  - rewrite Forall_forall in H. apply H, nth_In, Hl.
  - rewrite nth_overflow by exact Hl. unfold ok64. lia.
Qed.

Lemma u64_ok x : ok64 (u64 x).
Proof. apply trunc_range. lia. Qed.

Lemma schedule80_ok n : forall i kh kl, Forall ok64 (schedule80 i n kh kl).
Proof.
  induction n as [|n IH]; intros i kh kl; cbn [schedule80]; constructor.
  - apply u64_ok.
  - apply IH.
Qed.

Lemma schedule128_ok n : forall i kh kl, 0 <= i -> i + Z.of_nat n <= 2 ^ 64 ->
  Forall ok64 (schedule128 i n kh kl).
Proof.
  induction n as [|n IH]; intros i kh kl Hi Hn; cbn [schedule128]; constructor.
  - apply lxor_range; [apply u64_ok|].
    rewrite Z.shiftr_div_pow2 by lia.
    split; [apply Z.div_pos; lia|].
    apply (Z.le_lt_trans _ i); [apply Z.div_le_upper_bound; lia | lia].
  - apply IH; lia.
Qed.

Lemma PRESENT_init_ok key keyLen : keys_ok (PRESENT_init key keyLen).
Proof.
  apply Forall_keys_ok. unfold PRESENT_init. destruct (keyLen =? 80).
  - constructor; [apply u64_ok | apply schedule80_ok].
  - constructor; [apply u64_ok | apply schedule128_ok; cbn; lia].
Qed.

Lemma PRESENT_init_length key keyLen : length (PRESENT_init key keyLen) = S NR_ROUNDS.
Proof.
  assert (H80 : forall n i kh kl, length (schedule80 i n kh kl) = n).
  { induction n; intros; cbn [schedule80 length]; [reflexivity|]. rewrite IHn. reflexivity. }
  assert (H128 : forall n i kh kl, length (schedule128 i n kh kl) = n).
  { induction n; intros; cbn [schedule128 length]; [reflexivity|]. rewrite IHn. reflexivity. }
  unfold PRESENT_init. destruct (keyLen =? 80); cbn [length]; rewrite ?H80, ?H128; reflexivity.
Qed.


(** ** Further properties of the PRESENT code *)

(** X9: The decryption bit permutation undoes the encryption bit permutation on every 64-bit state. *)
Theorem pLayer_inverse s : ok64 s -> invPLayer (pLayer s) = s.
Proof. apply invPLayer_pLayer. Qed.

Lemma pLayer_inverse_witness :
  ok64 0x0123456789abcdef /\ invPLayer (pLayer 0x0123456789abcdef) = 0x0123456789abcdef.
Proof.
  assert (H : ok64 0x0123456789abcdef) by (unfold ok64; lia).
  split; [exact H | apply pLayer_inverse; exact H].
Defined.

(** X10: The inverse S-box layer undoes the S-box layer on every 64-bit state. *)
Theorem sBoxLayer_inverse s : ok64 s -> sBoxLayer isbox (sBoxLayer sbox s) = s.
Proof. apply sBoxLayer_inv. Qed.

Lemma sBoxLayer_inverse_witness :
  ok64 0x0123456789abcdef /\ sBoxLayer isbox (sBoxLayer sbox 0x0123456789abcdef) = 0x0123456789abcdef.
Proof.
  assert (H : ok64 0x0123456789abcdef) by (unfold ok64; lia).
  split; [exact H | apply sBoxLayer_inverse; exact H].
Defined.

(** X12: PRESENT_decrypt inverts PRESENT_encrypt for any array of 64-bit round keys, not only those from PRESENT_init, on blocks of four 16-bit words. *)
Theorem PRESENT_round_trip_any_keys ctx b0 b1 b2 b3 :
  forallb (fun k => (0 <=? k) && (k <? 2 ^ 64)) ctx = true ->
  ok16 b0 -> ok16 b1 -> ok16 b2 -> ok16 b3 ->
  PRESENT_decrypt ctx (PRESENT_encrypt ctx (b0, b1, b2, b3)) = (b0, b1, b2, b3).
Proof.
  intros Hk H0 H1 H2 H3. apply PRESENT_decrypt_encrypt; [|assumption..].
  apply Forall_keys_ok, Forall_forall. intros k Hin.
  rewrite forallb_forall in Hk. specialize (Hk k Hin).
  apply andb_prop in Hk as [Ha Hb]. apply Z.leb_le in Ha. apply Z.ltb_lt in Hb.
  unfold ok64. lia.
Qed.

Lemma PRESENT_round_trip_any_keys_witness :
  let ctx := map (fun i => 0x0123456789abcdef * Z.of_nat i mod 2 ^ 64) (seq 0 32) in
  forallb (fun k => (0 <=? k) && (k <? 2 ^ 64)) ctx = true /\ ok16 0xcafe /\ ok16 0xbabe /\
  PRESENT_decrypt ctx (PRESENT_encrypt ctx (0xcafe, 0xbabe, 0xcafe, 0xbabe))
  = (0xcafe, 0xbabe, 0xcafe, 0xbabe).
Proof.
  intros ctx.
  assert (Hk : forallb (fun k => (0 <=? k) && (k <? 2 ^ 64)) ctx = true) by (vm_compute; reflexivity).
  assert (Ha : ok16 0xcafe) by (unfold ok16; lia).
  assert (Hb : ok16 0xbabe) by (unfold ok16; lia).
  split; [exact Hk|]. split; [exact Ha|]. split; [exact Hb|].
  apply PRESENT_round_trip_any_keys; assumption.
Defined.

(** X13: Packing four 16-bit words into the 64-bit state and unpacking it again are inverse to each other. *)
Theorem block_state_conversions b0 b1 b2 b3 s :
  ok16 b0 -> ok16 b1 -> ok16 b2 -> ok16 b3 -> ok64 s ->
  block_of_state (state_of_block (b0, b1, b2, b3)) = (b0, b1, b2, b3) /\
  state_of_block (block_of_state s) = s.
Proof.
  intros H0 H1 H2 H3 Hs. split.
  - apply block_of_state_of_block; assumption.
  - apply state_of_block_of_state; assumption.
Qed.

Lemma block_state_conversions_witness :
  ok16 1 /\ ok16 2 /\ ok16 3 /\ ok16 4 /\ ok64 0x0123456789abcdef /\
  block_of_state (state_of_block (1, 2, 3, 4)) = (1, 2, 3, 4) /\
  state_of_block (block_of_state 0x0123456789abcdef) = 0x0123456789abcdef.
Proof.
  assert (H1 : ok16 1) by (unfold ok16; lia).
  assert (H2 : ok16 2) by (unfold ok16; lia).
  assert (H3 : ok16 3) by (unfold ok16; lia).
  assert (H4 : ok16 4) by (unfold ok16; lia).
  assert (H : ok64 0x0123456789abcdef) by (unfold ok64; lia).
  do 5 (split; [assumption|]). apply block_state_conversions; assumption.
Defined.

(** X14: PRESENT_init reads only key[0..4] for an 80-bit key and key[0..7] for a 128-bit key. *)
Theorem PRESENT_init_key_prefix key :
  PRESENT_init key 80 = PRESENT_init (firstn 5 key) 80 /\
  PRESENT_init key 128 = PRESENT_init (firstn 8 key) 128.
Proof.
  destruct key as [|k0 [|k1 [|k2 [|k3 [|k4 [|k5 [|k6 [|k7 rest]]]]]]]]; split; reflexivity.
Qed.

End PRESENTProofs.

Module SIMONProofs.
Import SIMON.


(** One pair of rounds undone: [R2(&y, &x, l, k)] after [R2(&x, &y, k, l)]. *)
Ltac xor_tac := apply Z.bits_inj'; intros ?n ?Hn; rewrite ?Z.lxor_spec; btauto.

Lemma R2_inverse x y k l x' y' : R2 x y k l = (x', y') -> R2 y' x' l k = (y, x).
Proof.
  unfold R2; cbv beta iota zeta. intros E. apply pair_equal_spec in E as [<- <-].
  set (y1 := Z.lxor (Z.lxor y (f x)) k).
  assert (Hx : Z.lxor (Z.lxor (Z.lxor (Z.lxor x (f y1)) l) (f y1)) l = x) by xor_tac.
  rewrite Hx. apply pair_equal_spec; split; [unfold y1|]; xor_tac.
Qed.

(** The encryption loop over [m] pairs of subkeys from pair [j]. *)
Definition enc_pair (sk : list Z) (j : nat) (xy : Z * Z) : Z * Z :=
  R2 (fst xy) (snd xy) (nth (2 * j) sk 0) (nth (2 * j + 1) sk 0).

Fixpoint enc_pairs (sk : list Z) (j m : nat) (xy : Z * Z) : Z * Z :=
  match m with
  | O => xy
  | S m' => enc_pairs sk (S j) m' (enc_pair sk j xy)
  end.

Definition dec_pair (sk : list Z) (j : nat) (xy : Z * Z) : Z * Z :=
  let '(y, x) := R2 (snd xy) (fst xy) (nth (2 * j + 1) sk 0) (nth (2 * j) sk 0) in (x, y).

Fixpoint dec_pairs (sk : list Z) (m : nat) (xy : Z * Z) : Z * Z :=
  match m with
  | O => xy
  | S m' => dec_pairs sk m' (dec_pair sk m' xy)
  end.

Lemma encrypt_loop_pairs sk m : forall j fuel x y, (m <= fuel)%nat ->
  encrypt_loop sk fuel (2 * j) (2 * j + 2 * m) x y = enc_pairs sk j m (x, y).
Proof.
  induction m as [|m IH]; intros j fuel x y Hf.
  - destruct fuel; cbn [encrypt_loop enc_pairs]; [reflexivity|].
    rewrite Nat.add_0_r, Nat.ltb_irrefl. reflexivity.
  - destruct fuel as [|fuel]; [lia|]. cbn [encrypt_loop enc_pairs].
    replace (2 * j <? 2 * j + 2 * S m)%nat with true by (symmetry; apply Nat.ltb_lt; lia).
    unfold enc_pair; cbn [fst snd].
    destruct (R2 x y (nth (2 * j) sk 0) (nth (2 * j + 1) sk 0)) as [x' y'].
    replace (2 * j + 2)%nat with (2 * S j)%nat by lia.
    replace (2 * j + 2 * S m)%nat with (2 * S j + 2 * m)%nat by lia.
    apply IH. lia.
Qed.

Lemma decrypt_loop_pairs sk m : forall fuel x y, (m <= fuel)%nat ->
  decrypt_loop sk fuel (2 * Z.of_nat m - 1) x y = dec_pairs sk m (x, y).
Proof.
  induction m as [|m IH]; intros fuel x y Hf.
  - destruct fuel; reflexivity.
  - destruct fuel as [|fuel]; [lia|]. cbn [decrypt_loop dec_pairs].
    replace (0 <=? 2 * Z.of_nat (S m) - 1) with true by (symmetry; apply Z.leb_le; lia).
    replace (Z.to_nat (2 * Z.of_nat (S m) - 1)) with (2 * m + 1)%nat by lia.
    replace (Z.to_nat (2 * Z.of_nat (S m) - 1 - 1)) with (2 * m)%nat by lia.
    unfold dec_pair; cbn [fst snd].
    destruct (R2 y x (nth (2 * m + 1) sk 0) (nth (2 * m) sk 0)) as [y' x'].
    replace (2 * Z.of_nat (S m) - 1 - 2) with (2 * Z.of_nat m - 1) by lia.
    apply IH. lia.
Qed.

Lemma enc_pairs_last sk m : forall j xy,
  enc_pairs sk j (S m) xy = enc_pair sk (j + m) (enc_pairs sk j m xy).
Proof.
  induction m as [|m IH]; intros j xy.
  - cbn [enc_pairs]. rewrite Nat.add_0_r. reflexivity.
  - change (enc_pairs sk j (S (S m)) xy) with (enc_pairs sk (S j) (S m) (enc_pair sk j xy)).
    rewrite IH. replace (S j + m)%nat with (j + S m)%nat by lia. reflexivity.
Qed.

Lemma dec_pair_enc_pair sk j xy : dec_pair sk j (enc_pair sk j xy) = xy.
Proof.
  destruct xy as [x y]. unfold enc_pair, dec_pair; cbn [fst snd].
  destruct (R2 x y (nth (2 * j) sk 0) (nth (2 * j + 1) sk 0)) as [x' y'] eqn:E.
  cbn [fst snd]. rewrite (R2_inverse _ _ _ _ _ _ E). reflexivity.
Qed.

Lemma dec_pairs_S sk m xy : dec_pairs sk (S m) xy = dec_pairs sk m (dec_pair sk m xy).
Proof. reflexivity. Qed.

Lemma dec_pairs_enc_pairs sk m xy : dec_pairs sk m (enc_pairs sk 0 m xy) = xy.
Proof.
  revert xy. induction m as [|m IH]; intros xy; [reflexivity|].
  rewrite enc_pairs_last, Nat.add_0_l, dec_pairs_S, dec_pair_enc_pair. apply IH.
Qed.

(** Decryption inverts encryption for a subkey count that is even or 69,
    whatever the subkeys. *)
Lemma SIMON_decrypt_encrypt ctx b :
  Nat.Even (nrSubkeys ctx) \/ nrSubkeys ctx = 69%nat ->
  SIMON_decrypt ctx (SIMON_encrypt ctx b) = b.
Proof.
  destruct b as [x y]. destruct ctx as [n sk]; cbn [nrSubkeys subkeys]. intros Hn.
  unfold SIMON_encrypt, SIMON_decrypt; cbn [nrSubkeys subkeys].
  destruct (Nat.eqb_spec n 69) as [->|Hne].
  - pose proof (encrypt_loop_pairs sk 34 0 68 x y) as E. cbn [Nat.mul Nat.add] in E.
    rewrite E by lia.
    destruct (enc_pairs sk 0 34 (x, y)) as [x1 y1] eqn:E1.
    cbn [Nat.eqb].
    replace (Z.lxor (Z.lxor (Z.lxor (Z.lxor y1 (f x1)) (nth 68 sk 0)) (nth 68 sk 0)) (f x1))
      with y1 by (rewrite !lxor_cancel_r; reflexivity).
    pose proof (decrypt_loop_pairs sk 34 68 x1 y1) as D.
    change (2 * Z.of_nat 34 - 1) with 67 in D. rewrite D by lia.
    rewrite <- E1. apply dec_pairs_enc_pairs.
  - destruct Hn as [[m ->]|]; [|contradiction].
    pose proof (encrypt_loop_pairs sk m 0 (2 * m) x y) as E.
    rewrite Nat.mul_0_r, Nat.add_0_l in E. rewrite E by lia.
    destruct (enc_pairs sk 0 m (x, y)) as [x1 y1] eqn:E1.
    replace (Z.of_nat (2 * m) - 1) with (2 * Z.of_nat m - 1) by lia.
    rewrite decrypt_loop_pairs by lia.
    rewrite <- E1. apply dec_pairs_enc_pairs.
Qed.

Lemma SIMON_init_nrSubkeys key keyLen :
  nrSubkeys (SIMON_init key keyLen) = 68%nat \/ nrSubkeys (SIMON_init key keyLen) = 69%nat \/
  nrSubkeys (SIMON_init key keyLen) = 72%nat.
Proof.
  unfold SIMON_init. destruct (keyLen =? 128); [|destruct (keyLen =? 192)]; cbn; auto.
Qed.


(** ** Further properties of the SIMON code *)

Lemma ROR_64_ROL_64 x n : 0 <= x < 2 ^ 64 -> 0 < n < 64 -> ROR_64 (ROL_64 x n) n = x.
Proof.
  intros Hx Hn. rewrite <- (trunc_id 64 x) by exact Hx.
  unfold ROR_64, ROL_64, trunc. Z.bitblast.
  rewrite (Z.testbit_neg_r _ l1) by lia.
  rewrite Z.land_spec, Z.ones_spec_low by lia. btauto.
Qed.

Lemma ROL_64_as_ROR_64 y n : ROL_64 y n = ROR_64 y (64 - n).
Proof.
  unfold ROL_64, ROR_64. rewrite Z.lor_comm.
  replace (64 - (64 - n)) with n by lia. reflexivity.
Qed.

Lemma ROL_64_ROR_64 x n : 0 <= x < 2 ^ 64 -> 0 < n < 64 -> ROL_64 (ROR_64 x n) n = x.
Proof.
  intros Hx Hn. rewrite ROL_64_as_ROR_64.
  replace (ROR_64 x n) with (ROL_64 x (64 - n)).
  - apply ROR_64_ROL_64; [exact Hx | lia].
  - rewrite ROL_64_as_ROR_64. f_equal. lia.
Qed.

Lemma expand128_length ks i n z : length (expand128 ks i n z) = (length ks + n)%nat.
Proof.
  revert ks i z. induction n as [|n IH]; intros ks i z; cbn [expand128]; [lia|].
  rewrite IH, length_app. cbn [length]. lia.
Qed.
Lemma expand192_length ks i n z : length (expand192 ks i n z) = (length ks + n)%nat.
Proof.
  revert ks i z. induction n as [|n IH]; intros ks i z; cbn [expand192]; [lia|].
  rewrite IH, length_app. cbn [length]. lia.
Qed.
Lemma expand256_length ks i n z : length (expand256 ks i n z) = (length ks + n)%nat.
Proof.
  revert ks i z. induction n as [|n IH]; intros ks i z; cbn [expand256]; [lia|].
  rewrite IH, length_app. cbn [length]. lia.
Qed.

Theorem SIMON_init_subkeys_length key keyLen :
  length (subkeys (SIMON_init key keyLen)) = nrSubkeys (SIMON_init key keyLen).
Proof.
  unfold SIMON_init. destruct (keyLen =? 128); [|destruct (keyLen =? 192)];
    cbn [subkeys nrSubkeys]; rewrite length_app;
    rewrite ?expand128_length, ?expand192_length, ?expand256_length; reflexivity.
Qed.

(** X19: SIMON_init reads only key[0..1] for a 128-bit key, key[0..2] for a 192-bit key and key[0..3] for a 256-bit key. *)
Theorem SIMON_init_key_prefix key :
  SIMON_init key 128 = SIMON_init (firstn 2 key) 128 /\
  SIMON_init key 192 = SIMON_init (firstn 3 key) 192 /\
  SIMON_init key 256 = SIMON_init (firstn 4 key) 256.
Proof.
  destruct key as [|a [|b [|c [|d rest]]]]; split; [|split| |split| |split| |split| |split];
    reflexivity.
Qed.

(** X15: R2 with swapped words and swapped subkeys undoes R2: applying R2(&y, &x, l, k) after R2(&x, &y, k, l) restores x and y. *)
Theorem R2_undone_by_swapped_R2 x y k l :
  R2 (snd (R2 x y k l)) (fst (R2 x y k l)) l k = (y, x).
Proof. apply R2_inverse. destruct (R2 x y k l); reflexivity. Qed.

(** X16: SIMON_decrypt inverts SIMON_encrypt for any subkey values whenever
    nrSubkeys is even or 69, at most 72 (the size of the subkey array that
    SIMON_init fills, so the uint8_t counter of SIMON_encrypt never wraps) and
    every subkey the loops read is present. *)
Theorem SIMON_round_trip_any_subkeys ctx b :
  (nrSubkeys ctx <= 72)%nat ->
  (nrSubkeys ctx <= length (subkeys ctx))%nat ->
  Nat.even (nrSubkeys ctx) = true \/ nrSubkeys ctx = 69%nat ->
  SIMON_decrypt ctx (SIMON_encrypt ctx b) = b.
Proof.
  intros _ _ H. apply SIMON_decrypt_encrypt.
  destruct H as [H|H]; [left; apply Nat.even_spec; exact H | right; exact H].
Qed.

Lemma SIMON_round_trip_any_subkeys_witness :
  let ctx := mkContext 6 [1; 2; 3; 4; 5; 6] in
  (nrSubkeys ctx <= 72)%nat /\ (nrSubkeys ctx <= length (subkeys ctx))%nat /\
  (Nat.even (nrSubkeys ctx) = true \/ nrSubkeys ctx = 69%nat) /\
  SIMON_decrypt ctx (SIMON_encrypt ctx (7, 8)) = (7, 8).
Proof.
  intros ctx.
  assert (H1 : (nrSubkeys ctx <= 72)%nat) by (cbn; lia).
  assert (H2 : (nrSubkeys ctx <= length (subkeys ctx))%nat) by (cbn; lia).
  assert (H : Nat.even (nrSubkeys ctx) = true \/ nrSubkeys ctx = 69%nat) by (left; reflexivity).
  split; [exact H1|]. split; [exact H2|].
  split; [exact H | apply SIMON_round_trip_any_subkeys; assumption].
Defined.

(** X17: For a 64-bit x and 0 < n < 64, ROL_64 and ROR_64 by n undo each other. *)
Theorem ROL_ROR_64_inverse x n : 0 <= x < 2 ^ 64 -> 0 < n < 64 ->
  ROR_64 (ROL_64 x n) n = x /\ ROL_64 (ROR_64 x n) n = x.
Proof.
  intros Hx Hn. split; [apply ROR_64_ROL_64 | apply ROL_64_ROR_64]; assumption.
Qed.

Lemma ROL_ROR_64_inverse_witness :
  0 <= 0x0123456789abcdef < 2 ^ 64 /\ 0 < 3 < 64 /\
  ROR_64 (ROL_64 0x0123456789abcdef 3) 3 = 0x0123456789abcdef /\
  ROL_64 (ROR_64 0x0123456789abcdef 3) 3 = 0x0123456789abcdef.
Proof.
  assert (Hx : 0 <= 0x0123456789abcdef < 2 ^ 64) by lia.
  assert (Hn : 0 < 3 < 64) by lia.
  split; [exact Hx|]. split; [exact Hn|]. apply ROL_ROR_64_inverse; assumption.
Defined.

End SIMONProofs.

(** * The specification's claims *)

Module Claims.

(** C1: decrypting the encryption of a block under the same key returns the
    block, for ARIA (decryption right after the encryption with that key),
    PRESENT (round keys from [PRESENT_init], any key length, 16-bit block
    words) and SIMON (context from [SIMON_init], any key length). *)
Theorem round_trip_all_ciphers (s : ARIA.state) (pA keyA : ARIA.w128)
    (keyP : list Z) (keyLenP : Z) (b0 b1 b2 b3 : Z)
    (keyS : list Z) (keyLenS : Z) (bS : Z * Z) :
  ARIAProofs.ok128 pA -> ARIAProofs.ok128 keyA ->
  PRESENTProofs.ok16 b0 -> PRESENTProofs.ok16 b1 ->
  PRESENTProofs.ok16 b2 -> PRESENTProofs.ok16 b3 ->
  snd (ARIA.ARIA_decrypt (fst (ARIA.ARIA_encrypt s pA keyA))
                         (snd (ARIA.ARIA_encrypt s pA keyA)) keyA) = pA /\
  PRESENT.PRESENT_decrypt (PRESENT.PRESENT_init keyP keyLenP)
    (PRESENT.PRESENT_encrypt (PRESENT.PRESENT_init keyP keyLenP) (b0, b1, b2, b3))
    = (b0, b1, b2, b3) /\
  SIMON.SIMON_decrypt (SIMON.SIMON_init keyS keyLenS)
    (SIMON.SIMON_encrypt (SIMON.SIMON_init keyS keyLenS) bS) = bS.
Proof.
  intros HpA HkA H0 H1 H2 H3. split; [|split].
  - apply ARIAProofs.ARIA_decrypt_encrypt; assumption.
  - apply PRESENTProofs.PRESENT_decrypt_encrypt;
      [apply PRESENTProofs.PRESENT_init_ok | assumption..].
  - apply SIMONProofs.SIMON_decrypt_encrypt.
    destruct (SIMONProofs.SIMON_init_nrSubkeys keyS keyLenS) as [E|[E|E]];
      rewrite E; [left; exists 34%nat | right | left; exists 36%nat]; reflexivity.
Qed.

Lemma round_trip_all_ciphers_witness :
  ARIAProofs.ok128 ARIA.zero128 /\ PRESENTProofs.ok16 0 /\
  snd (ARIA.ARIA_decrypt (fst (ARIA.ARIA_encrypt ARIA.initial_state ARIA.zero128 ARIA.zero128))
                         (snd (ARIA.ARIA_encrypt ARIA.initial_state ARIA.zero128 ARIA.zero128))
                         ARIA.zero128) = ARIA.zero128 /\
  PRESENT.PRESENT_decrypt (PRESENT.PRESENT_init [] 80)
    (PRESENT.PRESENT_encrypt (PRESENT.PRESENT_init [] 80) (0, 0, 0, 0)) = (0, 0, 0, 0) /\
  SIMON.SIMON_decrypt (SIMON.SIMON_init [] 192)
    (SIMON.SIMON_encrypt (SIMON.SIMON_init [] 192) (1, 2)) = (1, 2).
Proof.
  assert (Ha : ARIAProofs.ok128 ARIA.zero128) by (vm_compute; repeat split; discriminate).
  assert (Hb : PRESENTProofs.ok16 0) by (unfold PRESENTProofs.ok16; lia).
  split; [exact Ha|]. split; [exact Hb|].
  apply (round_trip_all_ciphers ARIA.initial_state ARIA.zero128 ARIA.zero128
           [] 80 0 0 0 0 [] 192 (1, 2)); assumption.
Defined.

(** C2: [ARIA_decrypt] is not a function of its explicit inputs: with the same
    key and the same block it returns different results depending on which
    key the preceding [ARIA_encrypt] call used. *)
Theorem ARIA_decrypt_depends_on_prior_call :
  let key0 := ARIA.mk128 0 0 0 0 in
  let key1 := ARIA.mk128 0 0 0 1 in
  let blk := ARIA.mk128 0 0 0 0 in
  snd (ARIA.ARIA_decrypt (fst (ARIA.ARIA_encrypt ARIA.initial_state blk key0)) blk key0)
  <> snd (ARIA.ARIA_decrypt (fst (ARIA.ARIA_encrypt ARIA.initial_state blk key1)) blk key0).
Proof. vm_compute. discriminate. Qed.

(** C3 (amended): deriving a schedule never fails; an unsupported key length
    (PRESENT: not 80 or 128; SIMON: not 128, 192 or 256) yields the schedule
    of the 128-bit PRESENT branch and of the 256-bit SIMON branch. *)
Theorem unsupported_key_length_fallback keyP keyLenP keyS keyLenS :
  keyLenP <> 80 -> keyLenP <> 128 ->
  keyLenS <> 128 -> keyLenS <> 192 -> keyLenS <> 256 ->
  PRESENT.PRESENT_init keyP keyLenP = PRESENT.PRESENT_init keyP 128 /\
  SIMON.SIMON_init keyS keyLenS = SIMON.SIMON_init keyS 256.
Proof.
  intros HP1 _ HS1 HS2 _. unfold PRESENT.PRESENT_init, SIMON.SIMON_init.
  apply Z.eqb_neq in HP1, HS1, HS2. rewrite HP1, HS1, HS2. split; reflexivity.
Qed.

Lemma unsupported_key_length_fallback_witness :
  PRESENT.PRESENT_init [1; 2; 3; 4] 64 = PRESENT.PRESENT_init [1; 2; 3; 4] 128 /\
  SIMON.SIMON_init [1; 2] 100 = SIMON.SIMON_init [1; 2] 256.
Proof.
  apply unsupported_key_length_fallback; discriminate.
Defined.

(** C3 (counterexample): with a 64-bit PRESENT key length and a 100-bit
    SIMON key length, [PRESENT_init] and [SIMON_init] return a schedule
    (32 PRESENT round keys from all eight key words, 72 SIMON subkeys), the
    same as for 128 and 256 bits; no error is signalled. *)
Lemma unsupported_key_length_accepted :
  PRESENT.PRESENT_init [1; 2; 3; 4; 5; 6; 7; 8] 64
    = PRESENT.PRESENT_init [1; 2; 3; 4; 5; 6; 7; 8] 128 /\
  length (PRESENT.PRESENT_init [1; 2; 3; 4; 5; 6; 7; 8] 64) = 32%nat /\
  SIMON.SIMON_init [1; 2; 3; 4] 100 = SIMON.SIMON_init [1; 2; 3; 4] 256 /\
  SIMON.nrSubkeys (SIMON.SIMON_init [1; 2; 3; 4] 100) = 72%nat.
Proof. vm_compute. repeat split. Qed.

(** C4: the result of [ARIA_decrypt] does not depend on its key argument:
    from one global state, any two keys give the same result. *)
Theorem ARIA_decrypt_key_irrelevant (s : ARIA.state) (blk k1 k2 : ARIA.w128) :
  snd (ARIA.ARIA_decrypt s blk k1) = snd (ARIA.ARIA_decrypt s blk k2).
Proof. reflexivity. Qed.

(** C5: PRESENT-128 with the all-zero key encrypts the all-zero block to
    04bdd5f4eaefcc19. *)
Theorem PRESENT128_zero_vector :
  PRESENT.PRESENT_encrypt (PRESENT.PRESENT_init [0; 0; 0; 0; 0; 0; 0; 0] 128) (0, 0, 0, 0)
  = (0x04bd, 0xd5f4, 0xeaef, 0xcc19).
Proof. vm_compute. reflexivity. Qed.

(** C6: ARIA encrypts 00112233445566778899aabbccddeeff under key
    000102030405060708090a0b0c0d0e0f to d718fbd6ab644c739da95f3be6451778,
    whatever the globals left by earlier calls. *)
Theorem ARIA_test_vector (s : ARIA.state) :
  snd (ARIA.ARIA_encrypt s (ARIA.mk128 0x00112233 0x44556677 0x8899aabb 0xccddeeff)
                           (ARIA.mk128 0x00010203 0x04050607 0x08090a0b 0x0c0d0e0f))
  = ARIA.mk128 0xd718fbd6 0xab644c73 0x9da95f3b 0xe6451778.
Proof. vm_compute. reflexivity. Qed.

(** C7: SIMON with the 128-bit key 0f0e0d0c0b0a0908 0706050403020100 encrypts
    6373656420737265 6c6c657661727420 to 49681b1e1e54fe3f 65aa832af84e0bbc. *)
Theorem SIMON128_test_vector :
  SIMON.SIMON_encrypt (SIMON.SIMON_init [0x0f0e0d0c0b0a0908; 0x0706050403020100] 128)
    (0x6373656420737265, 0x6c6c657661727420)
  = (0x49681b1e1e54fe3f, 0x65aa832af84e0bbc).
Proof. vm_compute. reflexivity. Qed.

(** C8: the diffusion layer [A] is an involution on 128-bit values. *)
Theorem A_involution (x : ARIA.w128) : ARIAProofs.ok128 x -> ARIA.A (ARIA.A x) = x.
Proof. apply ARIAProofs.A_A. Qed.

Lemma A_involution_witness :
  ARIAProofs.ok128 (ARIA.mk128 0x00010203 0x04050607 0x08090a0b 0x0c0d0e0f) /\
  ARIA.A (ARIA.A (ARIA.mk128 0x00010203 0x04050607 0x08090a0b 0x0c0d0e0f))
  = ARIA.mk128 0x00010203 0x04050607 0x08090a0b 0x0c0d0e0f.
Proof.
  assert (H : ARIAProofs.ok128 (ARIA.mk128 0x00010203 0x04050607 0x08090a0b 0x0c0d0e0f))
    by (vm_compute; repeat split; discriminate).
  split; [exact H | apply A_involution; exact H].
Defined.

(** C9: after [generateEncryptionKeys] then [generateDecryptionKeys],
    dk1 = ek13, dk13 = ek1 and dk_i = A(ek_(14-i)) for 2 <= i <= 12. *)
Theorem decryption_key_relations (s : ARIA.state) :
  let t := ARIA.generateDecryptionKeys (ARIA.generateEncryptionKeys s) in
  ARIA.dk1 t = ARIA.ek13 t /\ ARIA.dk13 t = ARIA.ek1 t /\
  ARIA.dk2 t = ARIA.A (ARIA.ek12 t) /\ ARIA.dk3 t = ARIA.A (ARIA.ek11 t) /\
  ARIA.dk4 t = ARIA.A (ARIA.ek10 t) /\ ARIA.dk5 t = ARIA.A (ARIA.ek9 t) /\
  ARIA.dk6 t = ARIA.A (ARIA.ek8 t) /\ ARIA.dk7 t = ARIA.A (ARIA.ek7 t) /\
  ARIA.dk8 t = ARIA.A (ARIA.ek6 t) /\ ARIA.dk9 t = ARIA.A (ARIA.ek5 t) /\
  ARIA.dk10 t = ARIA.A (ARIA.ek4 t) /\ ARIA.dk11 t = ARIA.A (ARIA.ek3 t) /\
  ARIA.dk12 t = ARIA.A (ARIA.ek2 t).
Proof. intros t. repeat split. Qed.

(** C10: every key length other than 80 selects the 128-bit PRESENT branch,
    every key length other than 128 and 192 the 256-bit SIMON branch. *)
Theorem key_length_dispatch keyP keyLenP keyS keyLenS :
  keyLenP <> 80 -> keyLenS <> 128 -> keyLenS <> 192 ->
  PRESENT.PRESENT_init keyP keyLenP = PRESENT.PRESENT_init keyP 128 /\
  SIMON.SIMON_init keyS keyLenS = SIMON.SIMON_init keyS 256.
Proof.
  intros HP HS1 HS2. unfold PRESENT.PRESENT_init, SIMON.SIMON_init.
  apply Z.eqb_neq in HP, HS1, HS2. rewrite HP, HS1, HS2. split; reflexivity.
Qed.

Lemma key_length_dispatch_witness :
  96 <> 80 /\ 64 <> 128 /\ 64 <> 192 /\
  PRESENT.PRESENT_init [1; 2; 3; 4; 5; 6; 7; 8] 96 = PRESENT.PRESENT_init [1; 2; 3; 4; 5; 6; 7; 8] 128 /\
  SIMON.SIMON_init [1; 2; 3; 4] 64 = SIMON.SIMON_init [1; 2; 3; 4] 256.
Proof.
  assert (HP : 96 <> 80) by discriminate.
  assert (HS1 : 64 <> 128) by discriminate.
  assert (HS2 : 64 <> 192) by discriminate.
  split; [exact HP|]. split; [exact HS1|]. split; [exact HS2|].
  apply key_length_dispatch; assumption.
Defined.

End Claims.
